(** * Layer stores of the paint grid: a shallow embedding of [layer_store.py]

    The three stores ([SetLayerStore], [AdditiveLayerStore],
    [SequenceLayerStore]) are Python classes whose methods mutate [self],
    may raise, and (for [SetLayerStore.special]) assign to an attribute of
    a [Layer] object that other containers reference too.  The embedding
    therefore uses
    - a heap of [Layer] objects addressed by reference, so that two
      references to one object see one another's assignments;
    - a state-and-exception monad: a raised exception keeps the state
      reached so far, as in Python, where nothing is rolled back. *)

From Stdlib Require Import ZArith List String Ascii Bool Lia Permutation.
Import ListNotations.
Local Open Scope string_scope.
Local Open Scope list_scope.
Local Open Scope Z_scope.

(** ** Python values and exceptions *)

(** What [add] and [erase] hand back: [None] (a method that falls off its
    end) or a [bool]. *)
Inductive value : Type :=
| VNone
| VBool (b : bool).

(** The exceptions the modelled code can raise.  [OutOfFuel] is not a
    Python exception: it marks a [while] loop of the model that was cut
    before its condition turned false, and no result below is one. *)
Inductive exn : Type :=
| NameError (name : string)
| AttributeError (attr : string)
| IndexError
| Exception (msg : string)
| OutOfFuel.

Inductive outcome (A : Type) : Type :=
| Return (a : A)
| Raise (e : exn).
Arguments Return {A} a.
Arguments Raise {A} e.

(** ** The state-and-exception monad *)

Definition M (S A : Type) : Type := S -> outcome A * S.

Definition ret {S A} (a : A) : M S A := fun s => (Return a, s).

Definition raise {S A} (e : exn) : M S A := fun s => (Raise e, s).

Definition bind {S A B} (m : M S A) (k : A -> M S B) : M S B :=
  fun s =>
    match m s with
    | (Return a, s') => k a s'
    | (Raise e, s') => (Raise e, s')
    end.

Notation "x <- m ;; k" := (bind m (fun x => k))
  (at level 61, m at next level, right associativity).
Notation "m ;;; k" := (bind m (fun _ => k))
  (at level 61, right associativity).

Definition gets {S A} (f : S -> A) : M S A := fun s => (Return (f s), s).

Definition modify {S} (f : S -> S) : M S unit := fun s => (Return tt, f s).

(** Run a computation on a component of the state, given how to read the
    component and how to write it back. *)
Definition zoom {S T A} (rd : S -> T) (wr : T -> S -> S) (m : M T A) : M S A :=
  fun s => let (r, t') := m (rd s) in (r, wr t' s).

(** *** Loops *)

Inductive ctl : Type := Continue | Break.

(** [for x in xs: body], where the body may [break]. *)
Fixpoint for_each {S A} (xs : list A) (body : A -> M S ctl) : M S unit :=
  match xs with
  | [] => ret tt
  | x :: xs' =>
      c <- body x ;;
      match c with
      | Continue => for_each xs' body
      | Break => ret tt
      end
  end.

(** [range(n)]: empty when [n <= 0]. *)
Definition range (n : Z) : list Z := map Z.of_nat (seq 0 (Z.to_nat n)).

Fixpoint while_fuel {S} (fuel : nat) (cond : M S bool) (body : M S unit)
  : M S unit :=
  match fuel with
  | O => b <- cond ;; if b then raise OutOfFuel else ret tt
  | Datatypes.S fuel' =>
      b <- cond ;;
      if b then body ;;; while_fuel fuel' cond body else ret tt
  end.

(** [while cond: body], for a loop that consumes one element of a
    container per turn: [measure] reads the size of that container at
    the loop's entry, which bounds the number of turns. *)
Definition while_ {S} (measure : S -> nat) (cond : M S bool) (body : M S unit)
  : M S unit :=
  fun s => while_fuel (measure s) cond body s.

(** ** Layers and the heap *)

Definition Color : Type := (Z * Z * Z)%type.

Definition Color_eqb (c d : Color) : bool :=
  let '(r1, g1, b1) := c in
  let '(r2, g2, b2) := d in
  (r1 =? r2) && (g1 =? g2) && (b1 =? b2).

Definition Color_add (c d : Color) : Color :=
  let '(r1, g1, b1) := c in
  let '(r2, g2, b2) := d in
  (r1 + r2, g1 + g2, b1 + b2).

Module Layer.
(** Modelled from the spec: the class [Layer] of [layer_util] is not
    among the sources.  The record has the attributes the spec lists
    ([index], [name], [apply], [color]) and those
    [SequenceLayerStore.get_color] reads besides: the two activation
    thresholds [start] and [timestamp], and the layer's own
    [get_color(x, y)]. *)
Record t : Type := mk {
  index : Z;
  name : string;
  apply : Color -> Z -> Z -> Z -> Color;
  color : Color;
  start : Z;
  timestamp : Z;
  get_color : Z -> Z -> Color
}.

Definition set_apply (f : Color -> Z -> Z -> Z -> Color) (l : t) : t :=
  mk (index l) (name l) f (color l) (start l) (timestamp l) (get_color l).
End Layer.

(** A reference to a [Layer] object; Python's [is] is equality of
    references. *)
Definition loc : Type := nat.

Definition Heap : Type := loc -> Layer.t.

Definition upd (h : Heap) (l : loc) (v : Layer.t) : Heap :=
  fun l' => if Nat.eqb l' l then v else h l'.

(** What a method runs in: the heap of layers and the receiver [self]. *)
Record World (St : Type) : Type := mkWorld { heap : Heap; self : St }.
Arguments mkWorld {St} heap self.
Arguments heap {St} w.
Arguments self {St} w.

Definition on_self {St A} (m : M St A) : M (World St) A :=
  zoom self (fun st w => mkWorld (heap w) st) m.

(** [obj.attr] for a reference that may be [None]. *)
Definition getattr {St A} (attr : string) (f : Layer.t -> A) (o : option loc)
  : M (World St) A :=
  match o with
  | Some l => gets (fun w => f (heap w l))
  | None => raise (AttributeError attr)
  end.

(** A method body with local variables [L]: the locals are dropped on
    the way out, whether the body returns or raises. *)
Definition with_locals {L W A} (init : L) (m : M (L * W) A) : M W A :=
  fun w => let (r, s) := m (init, w) in (r, snd s).

Definition on_locals {L W A} (m : M L A) : M (L * W) A :=
  zoom fst (fun l s => (l, snd s)) m.

Definition on_world {L W A} (m : M W A) : M (L * W) A :=
  zoom snd (fun w s => (fst s, w)) m.

(** ** The containers of [data_structures] *)

Module ArrayR.
(** Modelled from the spec: [data_structures.referential_array] is not
    among the sources.  A fixed-capacity slot array whose slots start
    out null; reading or writing outside [0 .. len-1] is an error. *)
Definition t (A : Type) : Type := list (option A).

Definition create {A} (length : nat) : t A := repeat None length.

Definition len {A} (a : t A) : Z := Z.of_nat (List.length a).

Definition in_range {A} (a : t A) (i : Z) : bool :=
  (0 <=? i) && (i <? len a).

Fixpoint set_nth {A} (n : nat) (x : option A) (a : t A) : t A :=
  match a, n with
  | [], _ => []
  | _ :: a', O => x :: a'
  | y :: a', S n' => y :: set_nth n' x a'
  end.

Definition getitem {A} (i : Z) : M (t A) (option A) :=
  fun a =>
    if in_range a i then (Return (nth (Z.to_nat i) a None), a)
    else (Raise IndexError, a).

Definition setitem {A} (i : Z) (x : option A) : M (t A) unit :=
  fun a =>
    if in_range a i then (Return tt, set_nth (Z.to_nat i) x a)
    else (Raise IndexError, a).
End ArrayR.

Module ArrayStack.
(** Modelled from the spec: [data_structures.stack_adt] is not among
    the sources.  A stack with push and pop at one end; pushing beyond
    the maximum capacity is a reported error, and so is taking from an
    empty stack.  [items] lists the stack from its top down.
    [max_capacity = None] stands for [Stack()], constructed without a
    capacity.  [top] is read as a synonym of [peek]. *)
Record t (A : Type) : Type := mk { items : list A; max_capacity : option nat }.
Arguments mk {A} items max_capacity.
Arguments items {A} _.
Arguments max_capacity {A} _.

Definition create {A} (max_capacity : option nat) : t A := mk [] max_capacity.

Definition len {A} (s : t A) : Z := Z.of_nat (List.length (items s)).

Definition is_empty {A} : M (t A) bool :=
  gets (fun s => match items s with [] => true | _ => false end).

Definition is_full {A} (s : t A) : bool :=
  match max_capacity s with
  | Some c => Nat.leb c (List.length (items s))
  | None => false
  end.

Definition push {A} (item : A) : M (t A) unit :=
  fun s =>
    if is_full s then (Raise (Exception "Stack is full"), s)
    else (Return tt, mk (item :: items s) (max_capacity s)).

Definition pop {A} : M (t A) A :=
  fun s =>
    match items s with
    | [] => (Raise (Exception "Stack is empty"), s)
    | x :: rest => (Return x, mk rest (max_capacity s))
    end.

Definition peek {A} : M (t A) A :=
  fun s =>
    match items s with
    | [] => (Raise (Exception "Stack is empty"), s)
    | x :: _ => (Return x, s)
    end.

Definition top {A} : M (t A) A := peek.
End ArrayStack.

Module CircularQueue.
(** Modelled from the spec: [data_structures.queue_adt] is not among
    the sources.  A first-in first-out queue of bounded capacity;
    appending to a full queue is a reported error, and so is serving
    from an empty one.  [items] lists the queue from its front. *)
Record t (A : Type) : Type := mk { items : list A; max_capacity : nat }.
Arguments mk {A} items max_capacity.
Arguments items {A} _.
Arguments max_capacity {A} _.

Definition create {A} (max_capacity : nat) : t A := mk [] max_capacity.

Definition len {A} (q : t A) : Z := Z.of_nat (List.length (items q)).

Definition is_empty {A} : M (t A) bool :=
  gets (fun q => match items q with [] => true | _ => false end).

Definition is_full {A} (q : t A) : bool :=
  Nat.leb (max_capacity q) (List.length (items q)).

Definition append {A} (item : A) : M (t A) unit :=
  fun q =>
    if is_full q then (Raise (Exception "Queue is full"), q)
    else (Return tt, mk (items q ++ [item]) (max_capacity q)).

Definition serve {A} : M (t A) A :=
  fun q =>
    match items q with
    | [] => (Raise (Exception "Queue is empty"), q)
    | x :: rest => (Return x, mk rest (max_capacity q))
    end.
End CircularQueue.

Module ArraySortedList.
(** Modelled from the spec: [data_structures.array_sorted_list] is not
    among the sources.  A bounded list of layer references kept in
    ascending order of the key each was added under (the layer's
    [index]); membership is by identity of the reference; iteration
    yields the stored references in that order. *)
Record t : Type := mk { items : list (Z * loc); max_capacity : nat }.

Definition create (max_capacity : nat) : t := mk [] max_capacity.

Definition values (l : t) : list loc := map snd (items l).

Definition contains (x : option loc) (l : t) : bool :=
  match x with
  | Some r => existsb (Nat.eqb r) (values l)
  | None => false
  end.

Fixpoint insert (key : Z) (x : loc) (xs : list (Z * loc)) : list (Z * loc) :=
  match xs with
  | [] => [(key, x)]
  | (k, y) :: xs' =>
      if key <? k then (key, x) :: (k, y) :: xs'
      else (k, y) :: insert key x xs'
  end.

Definition add (key : Z) (x : loc) : M t unit :=
  fun l =>
    if Nat.leb (max_capacity l) (List.length (items l))
    then (Raise (Exception "List is full"), l)
    else (Return tt, mk (insert key x (items l)) (max_capacity l)).

Fixpoint remove_first (x : loc) (xs : list (Z * loc)) : option (list (Z * loc)) :=
  match xs with
  | [] => None
  | (k, y) :: xs' =>
      if Nat.eqb x y then Some xs'
      else option_map (cons (k, y)) (remove_first x xs')
  end.

Definition remove (x : loc) : M t unit :=
  fun l =>
    match remove_first x (items l) with
    | Some xs => (Return tt, mk xs (max_capacity l))
    | None => (Raise (Exception "Item not found"), l)
    end.
End ArraySortedList.

(** ** [class SetLayerStore] *)

Module SetLayerStore.
Record t : Type := mk { layer : option loc; layers : ArrayR.t loc }.

(** [__init__] *)
Definition init : t := mk None (ArrayR.create 20).

Definition on_layers {A} (m : M (ArrayR.t loc) A) : M (World t) A :=
  on_self (zoom layers (fun a s => mk (layer s) a) m).

Definition set_layer (o : option loc) : M (World t) unit :=
  on_self (modify (fun s => mk o (layers s))).

Definition add (layer : option loc) : M (World t) value :=
  match layer with
  | Some _ =>
      i <- getattr "index" Layer.index layer ;;
      on_layers (ArrayR.setitem i layer) ;;;
      set_layer layer ;;;
      ret (VBool true)
  | None => ret (VBool false)
  end.

Definition erase (layer : option loc) : M (World t) value :=
  i <- getattr "index" Layer.index layer ;;
  slot <- on_layers (ArrayR.getitem i) ;;
  match slot with
  | Some _ =>
      on_layers (ArrayR.setitem i None) ;;;
      set_layer None ;;;
      ret (VBool true)
  | None => ret (VBool false)
  end.

Definition get_color (start : Color) (timestamp x y : Z)
  : M (World t) Color :=
  cur <- gets (fun w => layer (self w)) ;;
  match cur with
  | Some _ =>
      f <- getattr "apply" Layer.apply cur ;;
      ret (f start timestamp x y)
  | None => ret start
  end.

(** [invert_color(f)]: the closure [inv]. *)
Definition invert_color (f : Color -> Z -> Z -> Z -> Color)
  : Color -> Z -> Z -> Z -> Color :=
  fun start timestamp x y =>
    let '(r, g, b) := f start timestamp x y in
    (255 - r, 255 - g, 255 - b).

(** [obj.apply = f]: an assignment to the object itself, seen through
    every reference to it. *)
Definition setattr_apply (l : loc) (f : Color -> Z -> Z -> Z -> Color)
  : M (World t) unit :=
  modify (fun w => mkWorld (upd (heap w) l (Layer.set_apply f (heap w l))) (self w)).

Definition special : M (World t) value :=
  n <- gets (fun w => ArrayR.len (layers (self w))) ;;
  for_each (range n) (fun i =>
    slot <- on_layers (ArrayR.getitem i) ;;
    match slot with
    | Some l =>
        f <- getattr "apply" Layer.apply slot ;;
        setattr_apply l (invert_color f) ;;;
        ret Continue
    | None => ret Continue
    end) ;;;
  ret VNone.
End SetLayerStore.

(** ** [class AdditiveLayerStore] *)

Module AdditiveLayerStore.
Record t : Type := mk {
  stack : ArrayStack.t (option loc);
  queue : CircularQueue.t (option loc)
}.

(** [__init__] *)
Definition init : t :=
  mk (ArrayStack.create (Some 100%nat)) (CircularQueue.create 100).

Definition stack_ {A} (m : M (ArrayStack.t (option loc)) A) : M (World t) A :=
  on_self (zoom stack (fun a s => mk a (queue s)) m).

Definition queue_ {A} (m : M (CircularQueue.t (option loc)) A) : M (World t) A :=
  on_self (zoom queue (fun a s => mk (stack s) a) m).

Definition add (layer : option loc) : M (World t) value :=
  stack_ (ArrayStack.push layer) ;;;
  queue_ (CircularQueue.append layer) ;;;
  ret VNone.

Definition special : M (World t) value :=
  layer <- stack_ ArrayStack.top ;;
  stack_ ArrayStack.pop ;;;
  stack_ (ArrayStack.push layer) ;;;
  queue_ (CircularQueue.append layer) ;;;
  n <- gets (fun w => CircularQueue.len (queue (self w)) - 1) ;;
  for_each (range n) (fun _ =>
    x <- queue_ CircularQueue.serve ;;
    queue_ (CircularQueue.append x) ;;;
    ret Continue) ;;;
  ret VNone.

(** The locals of [get_color]. *)
Record get_color_locals : Type := mkGL {
  color : Color;
  temp_stack : ArrayStack.t (option loc)
}.

Definition temp_stack_ {A} (m : M (ArrayStack.t (option loc)) A)
  : M (get_color_locals * World t) A :=
  on_locals (zoom temp_stack (fun a l => mkGL (color l) a) m).

(** [layer.color if isinstance(layer, Layer) else (0, 0, 0)] *)
Definition layer_color (h : Heap) (layer : option loc) : Color :=
  match layer with
  | Some l => Layer.color (h l)
  | None => (0, 0, 0)
  end.

Definition get_color (background_color : Color) (x y z : Z)
  : M (World t) Color :=
  with_locals (mkGL background_color (ArrayStack.create (Some 100%nat))) (
    while_ (fun s => List.length (ArrayStack.items (stack (self (snd s)))))
      (b <- on_world (stack_ ArrayStack.is_empty) ;; ret (negb b))
      (layer <- on_world (stack_ ArrayStack.pop) ;;
       layer_color <- on_world (gets (fun w => layer_color (heap w) layer)) ;;
       on_locals (modify (fun l =>
         mkGL (Color_add (color l) layer_color) (temp_stack l))) ;;;
       temp_stack_ (ArrayStack.push layer)) ;;;
    while_ (fun s => List.length (ArrayStack.items (temp_stack (fst s))))
      (b <- temp_stack_ ArrayStack.is_empty ;; ret (negb b))
      (x <- temp_stack_ ArrayStack.pop ;;
       on_world (stack_ (ArrayStack.push x))) ;;;
    on_locals (gets color)).

Definition erase (index : Z) : M (World t) value :=
  with_locals (CircularQueue.create (A := option loc) 100) (
    n <- on_world (gets (fun w => ArrayStack.len (stack (self w)))) ;;
    for_each (range n) (fun i =>
      layer <- on_world (stack_ ArrayStack.peek) ;;
      if i =? index then
        on_world (stack_ ArrayStack.pop) ;;;
        ret Break
      else
        on_world (stack_ ArrayStack.pop) ;;;
        on_locals (CircularQueue.append layer) ;;;
        ret Continue) ;;;
    while_ (fun s => List.length (CircularQueue.items (fst s)))
      (b <- on_locals CircularQueue.is_empty ;; ret (negb b))
      (x <- on_locals CircularQueue.serve ;;
       on_world (stack_ (ArrayStack.push x))) ;;;
    m <- on_world (gets (fun w => CircularQueue.len (queue (self w)))) ;;
    for_each (range m) (fun i =>
      layer <- on_world (queue_ CircularQueue.serve) ;;
      if i =? index then ret Break
      else
        on_world (queue_ (CircularQueue.append layer)) ;;;
        ret Continue) ;;;
    while_ (fun s => List.length (CircularQueue.items (fst s)))
      (b <- on_locals CircularQueue.is_empty ;; ret (negb b))
      (x <- on_locals CircularQueue.serve ;;
       on_world (queue_ (CircularQueue.append x))) ;;;
    ret VNone).
End AdditiveLayerStore.

(** ** [class SequenceLayerStore] *)

(** The names bound at module level in [layer_store.py]: its imports and
    its four classes.  A name read inside a method and bound neither
    there nor here raises [NameError] when the statement runs. *)
Definition module_globals : list string :=
  [ "annotations"; "ABC"; "abstractmethod"; "Layer"; "ArrayR"; "Queue"; "CircularQueue";
    "TestQueue"; "Stack"; "ArrayStack"; "ArraySortedList";
    "rainbow"; "black"; "lighten"; "invert"; "red"; "green"; "blue";
    "sparkle"; "darken";
    "LayerStore"; "SetLayerStore"; "AdditiveLayerStore";
    "SequenceLayerStore" ]%string.

Definition lookup_global {S} (globals : list string) (name : string) : M S unit :=
  if existsb (String.eqb name) globals then ret tt else raise (NameError name).

(** Stable insertion sort of references by a string key, as
    [sort(key=...)] orders them. *)
Fixpoint insert_by (key : loc -> string) (x : loc) (xs : list loc) : list loc :=
  match xs with
  | [] => [x]
  | y :: xs' =>
      if String.ltb (key x) (key y) then x :: y :: xs'
      else y :: insert_by key x xs'
  end.

Definition sort_by (key : loc -> string) (xs : list loc) : list loc :=
  fold_left (fun acc x => insert_by key x acc) xs [].

Module SequenceLayerStore.
Record t : Type := mk { layers : ArraySortedList.t }.

(** [__init__] *)
Definition init : t := mk (ArraySortedList.create 100).

Definition layers_ {A} (m : M ArraySortedList.t A) : M (World t) A :=
  on_self (zoom layers (fun a _ => mk a) m).

Definition contains (layer : option loc) : M (World t) bool :=
  gets (fun w => ArraySortedList.contains layer (layers (self w))).

Definition add (layer : option loc) : M (World t) value :=
  present <- contains layer ;;
  if present then ret (VBool false)
  else
    key <- getattr "index" Layer.index layer ;;
    match layer with
    | Some l => layers_ (ArraySortedList.add key l)
    | None => ret tt
    end ;;;
    ret (VBool true).

(** The locals of [get_color]; [color] is unbound until assigned. *)
Record get_color_locals : Type := mkGL {
  valid_layers : ArrayStack.t loc;
  curr_layer : option loc;
  color : option Color
}.

Definition valid_layers_ {A} (m : M (ArrayStack.t loc) A)
  : M (get_color_locals * World t) A :=
  on_locals (zoom valid_layers (fun a l => mkGL a (curr_layer l) (color l)) m).

Definition set_curr_layer (o : option loc) : M (get_color_locals * World t) unit :=
  on_locals (modify (fun l => mkGL (valid_layers l) o (color l))).

Definition set_color (c : Color) : M (get_color_locals * World t) unit :=
  on_locals (modify (fun l => mkGL (valid_layers l) (curr_layer l) (Some c))).

(** [obj.get_color(x, y)] *)
Definition call_get_color (o : option loc) (x y : Z)
  : M (get_color_locals * World t) Color :=
  f <- on_world (getattr "get_color" Layer.get_color o) ;;
  ret (f x y).

Definition get_color (start timestamp x y : Z) : M (World t) Color :=
  with_locals (mkGL (ArrayStack.create None) None None) (
    ls <- on_world (gets (fun w => ArraySortedList.values (layers (self w)))) ;;
    for_each ls (fun layer =>
      ts <- on_world (getattr "timestamp" Layer.timestamp (Some layer)) ;;
      st <- on_world (getattr "start" Layer.start (Some layer)) ;;
      if (ts <=? timestamp) && (st <=? start) then
        set_curr_layer (Some layer) ;;;
        valid_layers_ (ArrayStack.push layer) ;;;
        ret Continue
      else ret Continue) ;;;
    cur <- on_locals (gets curr_layer) ;;
    c <- call_get_color cur x y ;;
    set_color c ;;;
    while_ (fun s => List.length (ArrayStack.items (valid_layers (fst s))))
      (b <- valid_layers_ ArrayStack.is_empty ;; ret (negb b))
      (layer <- valid_layers_ ArrayStack.pop ;;
       cur <- on_locals (gets curr_layer) ;;
       c1 <- call_get_color (Some layer) x y ;;
       c2 <- call_get_color cur x y ;;
       if negb (Color_eqb c1 c2) then
         c3 <- call_get_color (Some layer) x y ;;
         set_color c3 ;;;
         set_curr_layer (Some layer)
       else ret tt) ;;;
    col <- on_locals (gets color) ;;
    match col with
    | Some c => ret c
    | None => raise (NameError "color")
    end).

Definition erase (layer : option loc) : M (World t) value :=
  present <- contains layer ;;
  if present then
    match layer with
    | Some l => layers_ (ArraySortedList.remove l)
    | None => ret tt
    end ;;;
    ret (VBool true)
  else ret (VBool false).

(** The locals of [special]. *)
Record special_locals : Type := mkSL {
  layer_queue : CircularQueue.t loc;
  median_layers : list loc
}.

Definition layer_queue_ {A} (m : M (CircularQueue.t loc) A)
  : M (special_locals * World t) A :=
  on_locals (zoom layer_queue (fun a l => mkSL a (median_layers l)) m).

Definition sort_queue_by_name : M (special_locals * World t) unit :=
  modify (fun s =>
    let q := layer_queue (fst s) in
    let key := fun l => Layer.name (heap (snd s) l) in
    (mkSL (CircularQueue.mk (sort_by key (CircularQueue.items q))
                            (CircularQueue.max_capacity q))
          (median_layers (fst s)),
     snd s)).

(** The body of [special], run with [globals] as the module's names.
    [CircularQueueQueue()] and [List()] are first looked up; were they
    bound, the one is read as a queue of the store's capacity and the
    other as a Python list, both sorted by name. *)
Definition special_in (globals : list string) : M (World t) value :=
  with_locals (mkSL (CircularQueue.create 100) []) (
    lookup_global globals "CircularQueueQueue" ;;;
    ls <- on_world (gets (fun w => ArraySortedList.values (layers (self w)))) ;;
    for_each ls (fun layer =>
      layer_queue_ (CircularQueue.append layer) ;;;
      ret Continue) ;;;
    sort_queue_by_name ;;;
    lookup_global globals "List" ;;;
    while_ (fun s => List.length (CircularQueue.items (layer_queue (fst s))))
      (b <- layer_queue_ CircularQueue.is_empty ;; ret (negb b))
      (x <- layer_queue_ CircularQueue.serve ;;
       on_locals (modify (fun l =>
         mkSL (layer_queue l) (median_layers l ++ [x]))) ;;;
       b <- layer_queue_ CircularQueue.is_empty ;;
       if negb b then layer_queue_ CircularQueue.serve ;;; ret tt
       else ret tt) ;;;
    ms <- gets (fun s =>
      sort_by (fun l => Layer.name (heap (snd s) l)) (median_layers (fst s))) ;;
    for_each ms (fun layer =>
      on_world (erase (Some layer)) ;;;
      ret Continue) ;;;
    ret VNone).

Definition special : M (World t) value := special_in module_globals.
End SequenceLayerStore.

(** ** [class Grid] of [grid.py] *)

Module Grid.
Definition DRAW_STYLE_SET : string := "SET".
Definition DRAW_STYLE_ADD : string := "ADD".
Definition DRAW_STYLE_SEQUENCE : string := "SEQUENCE".
Definition DRAW_STYLE_OPTIONS : list string :=
  [DRAW_STYLE_SET; DRAW_STYLE_ADD; DRAW_STYLE_SEQUENCE].

Definition DEFAULT_BRUSH_SIZE : Z := 1.
Definition MAX_BRUSH : Z := 5.
Definition MIN_BRUSH : Z := 0.

(** The names bound at module level in [grid.py]: of the three store
    classes only [SetLayerStore] is imported. *)
Definition module_globals : list string :=
  [ "annotations"; "ArrayR"; "ArraySortedList"; "SetLayerStore"; "Grid" ]%string.

(** What a grid square can hold. *)
Inductive cell : Type :=
| SetCell (s : SetLayerStore.t)
| AdditiveCell (s : AdditiveLayerStore.t)
| SequenceCell (s : SequenceLayerStore.t).

(** The attributes of a [Grid] object; [None] is an attribute that no
    statement has assigned yet. *)
Record t : Type := mk {
  draw_style : option string;
  brush_size : option Z;
  rows : option Z;
  cols : option Z;
  grid : option (ArrayR.t (ArrayR.t cell))
}.

(** The object as [__init__] receives it. *)
Definition blank : t := mk None None None None None.

(** A grid method runs on the object and on what has been printed. *)
Record world : Type := mkW { stdout : list string; obj : t }.

(** [self.attr], read. *)
Definition attr {A} (name : string) (f : t -> option A) : M world A :=
  fun w =>
    match f (obj w) with
    | Some a => (Return a, w)
    | None => (Raise (AttributeError name), w)
    end.

Definition assign (g : t -> t) : M world unit :=
  modify (fun w => mkW (stdout w) (g (obj w))).

Definition set_draw_style (v : string) : M world unit :=
  assign (fun o => mk (Some v) (brush_size o) (rows o) (cols o) (grid o)).

Definition set_brush_size (v : Z) : M world unit :=
  assign (fun o => mk (draw_style o) (Some v) (rows o) (cols o) (grid o)).

Definition set_rows (v : Z) : M world unit :=
  assign (fun o => mk (draw_style o) (brush_size o) (Some v) (cols o) (grid o)).

Definition set_cols (v : Z) : M world unit :=
  assign (fun o => mk (draw_style o) (brush_size o) (rows o) (Some v) (grid o)).

Definition set_grid (v : ArrayR.t (ArrayR.t cell)) : M world unit :=
  assign (fun o => mk (draw_style o) (brush_size o) (rows o) (cols o) (Some v)).

Definition print (line : string) : M world unit :=
  modify (fun w => mkW (stdout w ++ [line]) (obj w)).

(** An operation on the array [self.grid]. *)
Definition grid_ {A} (m : M (ArrayR.t (ArrayR.t cell)) A) : M world A :=
  fun w =>
    match grid (obj w) with
    | Some g =>
        let (r, g') := m g in
        (r, mkW (stdout w)
                (mk (draw_style (obj w)) (brush_size (obj w)) (rows (obj w))
                    (cols (obj w)) (Some g')))
    | None => (Raise (AttributeError "grid"), w)
    end.

(** [self.grid[i][j] = v].  The row is an object of its own, updated in
    place; a null row cannot be subscripted, which Python reports as a
    [TypeError]. *)
Definition set_cell (i j : Z) (v : cell) : M world unit :=
  row <- grid_ (ArrayR.getitem i) ;;
  match row with
  | Some r =>
      match ArrayR.setitem j (Some v) r with
      | (Return _, r') => grid_ (ArrayR.setitem i (Some r'))
      | (Raise e, _) => raise e
      end
  | None => raise (Exception "'NoneType' object does not support item assignment")
  end.

(** [__init__(draw_style, x, y)] *)
Definition init (draw_style_arg : string) (x y : Z) : M world unit :=
  (if existsb (String.eqb draw_style_arg) DRAW_STYLE_OPTIONS
   then set_draw_style draw_style_arg
   else print "Draw style not correct") ;;;
  set_brush_size DEFAULT_BRUSH_SIZE ;;;
  set_rows x ;;;
  set_cols y ;;;
  r <- attr "rows" rows ;;
  set_grid (ArrayR.create (Z.to_nat r)) ;;;
  r <- attr "rows" rows ;;
  for_each (range r) (fun i =>
    c <- attr "cols" cols ;;
    grid_ (ArrayR.setitem i (Some (ArrayR.create (Z.to_nat c)))) ;;;
    c <- attr "cols" cols ;;
    for_each (range c) (fun j =>
      ds <- attr "draw_style" draw_style ;;
      if String.eqb ds "Set" then
        lookup_global module_globals "SetLayerStore" ;;;
        set_cell i j (SetCell SetLayerStore.init) ;;;
        ret Continue
      else
        ds <- attr "draw_style" draw_style ;;
        if String.eqb ds "Additive" then
          lookup_global module_globals "AdditiveLayerStore" ;;;
          set_cell i j (AdditiveCell AdditiveLayerStore.init) ;;;
          ret Continue
        else
          ds <- attr "draw_style" draw_style ;;
          if String.eqb ds "Sequential" then
            lookup_global module_globals "SequenceLayerStore" ;;;
            set_cell i j (SequenceCell SequenceLayerStore.init) ;;;
            ret Continue
          else ret Continue) ;;;
    ret Continue).

(** [Grid(draw_style, x, y)]: [__init__] on a blank object. *)
Definition construct (draw_style_arg : string) (x y : Z) (printed : list string)
  : outcome unit * world :=
  init draw_style_arg x y (mkW printed blank).

(** [__getitem__(key)] *)
Definition getitem (key : Z) : M world (option (ArrayR.t cell)) :=
  grid_ (ArrayR.getitem key).

(** [__setitem__(item, row, col)] *)
Definition setitem (item : cell) (row col : Z) : M world unit :=
  set_cell row col item.

Definition increase_brush_size : M world unit :=
  b <- attr "brush_size" brush_size ;;
  if b <? MAX_BRUSH then
    b <- attr "brush_size" brush_size ;;
    set_brush_size (b + 1)
  else ret tt.

Definition decrease_brush_size : M world unit :=
  b <- attr "brush_size" brush_size ;;
  if b >? MIN_BRUSH then
    b <- attr "brush_size" brush_size ;;
    set_brush_size (b - 1)
  else ret tt.
End Grid.

(** ** Quantities the statements speak of *)

(** Channel-wise sum of the fixed colors of a list of stack entries. *)
Definition sum_colors (h : Heap) (ls : list (option loc)) : Color :=
  fold_right (fun o acc => Color_add (AdditiveLayerStore.layer_color h o) acc)
             (0, 0, 0) ls.

(** The add order of an additive store as its stack holds it, oldest
    first, and as its queue holds it. *)
Definition stack_order (s : AdditiveLayerStore.t) : list (option loc) :=
  rev (ArrayStack.items (AdditiveLayerStore.stack s)).

Definition queue_order (s : AdditiveLayerStore.t) : list (option loc) :=
  CircularQueue.items (AdditiveLayerStore.queue s).

(** [add] called once per element of [ls], in order. *)
Fixpoint add_all (ls : list (option loc))
  : M (World AdditiveLayerStore.t) unit :=
  match ls with
  | [] => ret tt
  | l :: ls' => AdditiveLayerStore.add l ;;; add_all ls'
  end.

(** The color inversion on triples, and what one pass of
    [SetLayerStore.special] over the slot array does to the heap. *)
Definition invert_triple (c : Color) : Color :=
  let '(r, g, b) := c in (255 - r, 255 - g, 255 - b).

Definition invert_slot (h : Heap) (slot : option loc) : Heap :=
  match slot with
  | Some l =>
      upd h l (Layer.set_apply (SetLayerStore.invert_color (Layer.apply (h l))) (h l))
  | None => h
  end.

Definition invert_slots (slots : list (option loc)) (h : Heap) : Heap :=
  fold_left invert_slot slots h.

(** The indices of the non-null slots of a slot array. *)
Fixpoint occupied_from (i : Z) (slots : list (option loc)) : list Z :=
  match slots with
  | [] => []
  | Some _ :: rest => i :: occupied_from (i + 1) rest
  | None :: rest => occupied_from (i + 1) rest
  end.

Definition occupied (s : SetLayerStore.t) : list Z :=
  occupied_from 0 (SetLayerStore.layers s).

(** The invariant the single-slot store is meant to keep: the current
    layer is set exactly when one slot is non-null, the one at the
    current layer's index. *)
Definition single_slot_invariant (w : World SetLayerStore.t) : Prop :=
  match SetLayerStore.layer (self w) with
  | Some l => occupied (self w) = [Layer.index (heap w l)]
  | None => occupied (self w) = []
  end.

(** The part of a layer that no store assigns to. *)
Definition fixed_fields (l : Layer.t)
  : Z * string * Color * Z * Z * (Z -> Z -> Color) :=
  (Layer.index l, Layer.name l, Layer.color l, Layer.start l,
   Layer.timestamp l, Layer.get_color l).

(** A computation leaves an observation [f] of the state as it was,
    whether it returns or raises. *)
Definition preserves {S A X} (f : S -> X) (m : M S A) : Prop :=
  forall s, f (snd (m s)) = f s.

(** *** Layers used in the examples *)

Definition flat (index : Z) (name : string) (c : Color) : Layer.t :=
  Layer.mk index name (fun _ _ _ _ => c) c 0 0 (fun _ _ => c).

(** Three layers A, B, C at references 0, 1, 2. *)
Definition heap_abc : Heap :=
  fun l =>
    match l with
    | 0%nat => flat 0 "A" (1, 0, 0)
    | 1%nat => flat 1 "B" (0, 2, 0)
    | _ => flat 2 "C" (0, 0, 4)
    end.

Definition A : option loc := Some 0%nat.
Definition B : option loc := Some 1%nat.
Definition C : option loc := Some 2%nat.

(** Five layers named b, a, e, c, d at references 0 .. 4. *)
Definition heap_names : Heap :=
  fun l =>
    match l with
    | 0%nat => flat 0 "b" (1, 1, 1)
    | 1%nat => flat 1 "a" (2, 2, 2)
    | 2%nat => flat 2 "e" (3, 3, 3)
    | 3%nat => flat 3 "c" (4, 4, 4)
    | _ => flat 4 "d" (5, 5, 5)
    end.

(** The names of the layers a sequence store holds. *)
Definition stored_names (w : World SequenceLayerStore.t) : list string :=
  map (fun l => Layer.name (heap w l))
      (ArraySortedList.values (SequenceLayerStore.layers (self w))).

(** [add] called once per reference, in order. *)
Fixpoint seq_add_all (ls : list loc) : M (World SequenceLayerStore.t) unit :=
  match ls with
  | [] => ret tt
  | l :: ls' => SequenceLayerStore.add (Some l) ;;; seq_add_all ls'
  end.

(** *** The loops of the methods, named for the proofs *)

(** The body of the [for] loop of [SetLayerStore.special]. *)
Definition set_special_body (i : Z) : M (World SetLayerStore.t) ctl :=
  slot <- SetLayerStore.on_layers (ArrayR.getitem i) ;;
  match slot with
  | Some l =>
      f <- getattr "apply" Layer.apply slot ;;
      SetLayerStore.setattr_apply l (SetLayerStore.invert_color f) ;;;
      ret Continue
  | None => ret Continue
  end.

(** How many slots of a slot array hold the reference [l]. *)
Fixpoint hits (l : loc) (slots : list (option loc)) : nat :=
  match slots with
  | [] => O
  | Some l' :: rest => if Nat.eqb l l' then S (hits l rest) else hits l rest
  | None :: rest => hits l rest
  end.

(** The two [while] loops of [AdditiveLayerStore.get_color]: the first
    empties the stack into [temp_stack], the second puts it back. *)
Definition drain_cond
  : M (AdditiveLayerStore.get_color_locals * World AdditiveLayerStore.t) bool :=
  b <- on_world (AdditiveLayerStore.stack_ ArrayStack.is_empty) ;; ret (negb b).

Definition drain_body
  : M (AdditiveLayerStore.get_color_locals * World AdditiveLayerStore.t) unit :=
  layer <- on_world (AdditiveLayerStore.stack_ ArrayStack.pop) ;;
  layer_color <- on_world (gets (fun w =>
    AdditiveLayerStore.layer_color (heap w) layer)) ;;
  on_locals (modify (fun l =>
    AdditiveLayerStore.mkGL
      (Color_add (AdditiveLayerStore.color l) layer_color)
      (AdditiveLayerStore.temp_stack l))) ;;;
  AdditiveLayerStore.temp_stack_ (ArrayStack.push layer).

Definition refill_cond
  : M (AdditiveLayerStore.get_color_locals * World AdditiveLayerStore.t) bool :=
  b <- AdditiveLayerStore.temp_stack_ ArrayStack.is_empty ;; ret (negb b).

Definition refill_body
  : M (AdditiveLayerStore.get_color_locals * World AdditiveLayerStore.t) unit :=
  x <- AdditiveLayerStore.temp_stack_ ArrayStack.pop ;;
  on_world (AdditiveLayerStore.stack_ (ArrayStack.push x)).

(** The color [get_color] has accumulated after adding the entries
    [ls], in that order, to [c]. *)
Definition acc_colors (h : Heap) (ls : list (option loc)) (c : Color) : Color :=
  fold_left (fun c o => Color_add c (AdditiveLayerStore.layer_color h o)) ls c.

(** The activation condition of [SequenceLayerStore.get_color]: both
    thresholds of the layer are met. *)
Definition activated (h : Heap) (start timestamp : Z) (l : loc) : bool :=
  (Layer.timestamp (h l) <=? timestamp) && (Layer.start (h l) <=? start).

(** The body of the [for] loop of [SequenceLayerStore.get_color]. *)
Definition collect_body (start timestamp : Z) (layer : loc)
  : M (SequenceLayerStore.get_color_locals * World SequenceLayerStore.t) ctl :=
  ts <- on_world (getattr "timestamp" Layer.timestamp (Some layer)) ;;
  st <- on_world (getattr "start" Layer.start (Some layer)) ;;
  if (ts <=? timestamp) && (st <=? start) then
    SequenceLayerStore.set_curr_layer (Some layer) ;;;
    SequenceLayerStore.valid_layers_ (ArrayStack.push layer) ;;;
    ret Continue
  else ret Continue.

(** The body of the [for] loop of [AdditiveLayerStore.special]. *)
Definition rotate_body (_ : Z) : M (World AdditiveLayerStore.t) ctl :=
  x <- AdditiveLayerStore.queue_ CircularQueue.serve ;;
  AdditiveLayerStore.queue_ (CircularQueue.append x) ;;;
  ret Continue.

(** *** [Grid]: its loops, and what the statements speak of *)

(** The body of the inner [for] loop of [Grid.__init__]. *)
Definition init_cell (i j : Z) : M Grid.world ctl :=
  ds <- Grid.attr "draw_style" Grid.draw_style ;;
  if String.eqb ds "Set" then
    lookup_global Grid.module_globals "SetLayerStore" ;;;
    Grid.set_cell i j (Grid.SetCell SetLayerStore.init) ;;;
    ret Continue
  else
    ds <- Grid.attr "draw_style" Grid.draw_style ;;
    if String.eqb ds "Additive" then
      lookup_global Grid.module_globals "AdditiveLayerStore" ;;;
      Grid.set_cell i j (Grid.AdditiveCell AdditiveLayerStore.init) ;;;
      ret Continue
    else
      ds <- Grid.attr "draw_style" Grid.draw_style ;;
      if String.eqb ds "Sequential" then
        lookup_global Grid.module_globals "SequenceLayerStore" ;;;
        Grid.set_cell i j (Grid.SequenceCell SequenceLayerStore.init) ;;;
        ret Continue
      else ret Continue.

(** The body of the outer [for] loop of [Grid.__init__]. *)
Definition init_row (i : Z) : M Grid.world ctl :=
  c <- Grid.attr "cols" Grid.cols ;;
  Grid.grid_ (ArrayR.setitem i (Some (ArrayR.create (Z.to_nat c)))) ;;;
  c <- Grid.attr "cols" Grid.cols ;;
  for_each (range c) (init_cell i) ;;;
  ret Continue.

(** A grid of [x] rows of [y] squares, every square null. *)
Definition empty_grid (x y : Z) : ArrayR.t (ArrayR.t Grid.cell) :=
  repeat (Some (ArrayR.create (Z.to_nat y))) (Z.to_nat x).

(** The two brush actions, and a sequence of them run in order. *)
Inductive brush_op : Type := Increase | Decrease.

Definition brush_call (op : brush_op) : M Grid.world unit :=
  match op with
  | Increase => Grid.increase_brush_size
  | Decrease => Grid.decrease_brush_size
  end.

Fixpoint brush_calls (ops : list brush_op) : M Grid.world unit :=
  match ops with
  | [] => ret tt
  | op :: ops' => brush_call op ;;; brush_calls ops'
  end.

(** *** The single-slot store under sequences of calls *)

(** A call of one of the four methods; [set_call] is the store after
    the call, whether the call returned or raised. *)
Inductive set_op : Type :=
| SetAdd (layer : option loc)
| SetErase (layer : option loc)
| SetGetColor (start : Color) (timestamp x y : Z)
| SetSpecial.

Definition set_call (op : set_op) (w : World SetLayerStore.t)
  : World SetLayerStore.t :=
  match op with
  | SetAdd o => snd (SetLayerStore.add o w)
  | SetErase o => snd (SetLayerStore.erase o w)
  | SetGetColor c t x y => snd (SetLayerStore.get_color c t x y w)
  | SetSpecial => snd (SetLayerStore.special w)
  end.

Definition set_calls (ops : list set_op) (w : World SetLayerStore.t)
  : World SetLayerStore.t :=
  fold_left (fun w op => set_call op w) ops w.

(** The slot a layer is filed under. *)
Definition slot_of (w : World SetLayerStore.t) (l : loc) : nat :=
  Z.to_nat (Layer.index (heap w l)).

(** What the slot array and the current layer satisfy together: the
    array keeps its 20 slots, a non-null slot holds a layer of that
    index, and the current layer, when set, is the one in the slot of
    its index. *)
Definition set_store_ok (w : World SetLayerStore.t) : Prop :=
  List.length (SetLayerStore.layers (self w)) = 20%nat /\
  (forall (i : nat) (l : loc),
      nth i (SetLayerStore.layers (self w)) None = Some l ->
      Layer.index (heap w l) = Z.of_nat i) /\
  (forall l : loc,
      SetLayerStore.layer (self w) = Some l ->
      nth (slot_of w l) (SetLayerStore.layers (self w)) None = Some l).

(** *** The loops of [AdditiveLayerStore.erase] *)

(** The body of its first [for] loop, over the stack. *)
Definition erase_stack_body (index i : Z)
  : M (CircularQueue.t (option loc) * World AdditiveLayerStore.t) ctl :=
  layer <- on_world (AdditiveLayerStore.stack_ ArrayStack.peek) ;;
  if i =? index then
    on_world (AdditiveLayerStore.stack_ ArrayStack.pop) ;;;
    ret Break
  else
    on_world (AdditiveLayerStore.stack_ ArrayStack.pop) ;;;
    on_locals (CircularQueue.append layer) ;;;
    ret Continue.

(** The body of its second [for] loop, over the queue. *)
Definition erase_queue_body (index i : Z)
  : M (CircularQueue.t (option loc) * World AdditiveLayerStore.t) ctl :=
  layer <- on_world (AdditiveLayerStore.queue_ CircularQueue.serve) ;;
  if i =? index then ret Break
  else
    on_world (AdditiveLayerStore.queue_ (CircularQueue.append layer)) ;;;
    ret Continue.

(** The condition of its two [while] loops, and their bodies. *)
Definition temp_cond : M (CircularQueue.t (option loc) * World AdditiveLayerStore.t) bool :=
  b <- on_locals CircularQueue.is_empty ;; ret (negb b).

Definition restack_body : M (CircularQueue.t (option loc) * World AdditiveLayerStore.t) unit :=
  x <- on_locals CircularQueue.serve ;;
  on_world (AdditiveLayerStore.stack_ (ArrayStack.push x)).

Definition requeue_body : M (CircularQueue.t (option loc) * World AdditiveLayerStore.t) unit :=
  x <- on_locals CircularQueue.serve ;;
  on_world (AdditiveLayerStore.queue_ (CircularQueue.append x)).

(** [special()] called [n] times in a row on an additive store. *)
Fixpoint special_times (n : nat) : M (World AdditiveLayerStore.t) unit :=
  match n with
  | O => ret tt
  | S n' => AdditiveLayerStore.special ;;; special_times n'
  end.

(** *** The [while] loop of [SequenceLayerStore.get_color] *)

Definition pick_cond
  : M (SequenceLayerStore.get_color_locals * World SequenceLayerStore.t) bool :=
  b <- SequenceLayerStore.valid_layers_ ArrayStack.is_empty ;; ret (negb b).

Definition pick_body (x y : Z)
  : M (SequenceLayerStore.get_color_locals * World SequenceLayerStore.t) unit :=
  layer <- SequenceLayerStore.valid_layers_ ArrayStack.pop ;;
  cur <- on_locals (gets SequenceLayerStore.curr_layer) ;;
  c1 <- SequenceLayerStore.call_get_color (Some layer) x y ;;
  c2 <- SequenceLayerStore.call_get_color cur x y ;;
  if negb (Color_eqb c1 c2) then
    c3 <- SequenceLayerStore.call_get_color (Some layer) x y ;;
    SequenceLayerStore.set_color c3 ;;;
    SequenceLayerStore.set_curr_layer (Some layer)
  else ret tt.

(** The layer [curr_layer] ends on after the loop has popped [items]. *)
Definition picked (h : Heap) (x y : Z) (cur : loc) (items : list loc) : loc :=
  fold_left (fun c l =>
    if Color_eqb (Layer.get_color (h l) x y) (Layer.get_color (h c) x y)
    then c else l) items cur.

(** *** The sequence store under sequences of calls *)

(** A call of one of the four methods; [seq_call] is the store after
    the call, whether the call returned or raised. *)
Inductive seq_op : Type :=
| SeqAdd (layer : option loc)
| SeqErase (layer : option loc)
| SeqGetColor (start timestamp x y : Z)
| SeqSpecial.

Definition seq_call (op : seq_op) (w : World SequenceLayerStore.t)
  : World SequenceLayerStore.t :=
  match op with
  | SeqAdd o => snd (SequenceLayerStore.add o w)
  | SeqErase o => snd (SequenceLayerStore.erase o w)
  | SeqGetColor s t x y => snd (SequenceLayerStore.get_color s t x y w)
  | SeqSpecial => snd (SequenceLayerStore.special w)
  end.

Definition seq_calls (ops : list seq_op) (w : World SequenceLayerStore.t)
  : World SequenceLayerStore.t :=
  fold_left (fun w op => seq_call op w) ops w.

(** The layers a sequence store holds, in iteration order. *)
Definition stored (w : World SequenceLayerStore.t) : list loc :=
  ArraySortedList.values (SequenceLayerStore.layers (self w)).

(** The grid object [__init__] leaves for a draw style [ds] of the
    options: [x] rows of [y] null squares. *)
Definition fresh_grid (ds : string) (x y : Z) (printed : list string)
  : Grid.world :=
  Grid.mkW printed
    (Grid.mk (Some ds) (Some Grid.DEFAULT_BRUSH_SIZE) (Some x) (Some y)
             (Some (empty_grid x y))).

(** * Theorems *)

(** ** [SequenceLayerStore.special] *)

(** With [CircularQueueQueue] unbound, [special] raises before it
    touches the store, whatever the store holds. *)
Lemma seq_special_raises (w : World SequenceLayerStore.t) :
  SequenceLayerStore.special w = (Raise (NameError "CircularQueueQueue"), w).
Proof. destruct w as [h s]. reflexivity. Qed.

(** Were the two unbound names bound as the body uses them, [special]
    would still not remove the median alone: it erases every other layer
    of the name order, here a, c and e. *)
Lemma seq_special_names_bound_five :
  let w := snd (seq_add_all [0; 1; 2; 3; 4]%nat
                  (mkWorld heap_names SequenceLayerStore.init)) in
  let r := SequenceLayerStore.special_in
             ("CircularQueueQueue" :: "List" :: module_globals) w in
  fst r = Return VNone /\ stored_names (snd r) = ["b"; "d"].
Proof. vm_compute. split; reflexivity. Qed.

(** C1: on the store holding the five layers named b, a, e, c, d,
    [special()] raises [NameError] and removes nothing, so the layer
    named c is still stored; likewise on the store holding a, b, c, d
    the layer named b is still stored. *)
Theorem C1_special_removes_no_median :
  let w5 := snd (seq_add_all [0; 1; 2; 3; 4]%nat
                   (mkWorld heap_names SequenceLayerStore.init)) in
  let w4 := snd (seq_add_all [1; 0; 3; 4]%nat
                   (mkWorld heap_names SequenceLayerStore.init)) in
  stored_names w5 = ["b"; "a"; "e"; "c"; "d"] /\
  fst (SequenceLayerStore.special w5) = Raise (NameError "CircularQueueQueue") /\
  stored_names (snd (SequenceLayerStore.special w5)) = ["b"; "a"; "e"; "c"; "d"] /\
  stored_names w4 = ["b"; "a"; "c"; "d"] /\
  fst (SequenceLayerStore.special w4) = Raise (NameError "CircularQueueQueue") /\
  stored_names (snd (SequenceLayerStore.special w4)) = ["b"; "a"; "c"; "d"].
Proof. vm_compute. repeat split; reflexivity. Qed.

(** ** [AdditiveLayerStore.special] *)

(** C2: after [add(A); add(B); add(C)], [special()] returns, leaves the
    stack in the order A, B, C and turns the queue into C, A, B, C: a
    fourth entry appears, and neither container holds B, C, A. *)
Theorem C2_special_after_three_adds :
  let w := snd (add_all [A; B; C] (mkWorld heap_abc AdditiveLayerStore.init)) in
  let r := AdditiveLayerStore.special w in
  stack_order (self w) = [A; B; C] /\
  queue_order (self w) = [A; B; C] /\
  fst r = Return VNone /\
  stack_order (self (snd r)) = [A; B; C] /\
  queue_order (self (snd r)) = [C; A; B; C] /\
  stack_order (self (snd r)) <> [B; C; A] /\
  queue_order (self (snd r)) <> [B; C; A].
Proof. vm_compute. repeat split; try reflexivity; discriminate. Qed.

(** ** [SequenceLayerStore.get_color] *)

Lemma collect_none (start timestamp : Z) (ls : list loc) :
  forall s,
    forallb (fun l => negb (activated (heap (snd s)) start timestamp l)) ls = true ->
    for_each ls (collect_body start timestamp) s = (Return tt, s).
Proof.
  induction ls as [|l ls IH]; intros [L [h st]] Hall; [reflexivity|].
  cbn [forallb snd heap] in Hall. apply andb_prop in Hall.
  destruct Hall as [Hl Hls].
  apply negb_true_iff in Hl. unfold activated in Hl.
  cbn [for_each]. unfold bind at 1. unfold collect_body at 1.
  unfold bind, on_world, getattr, zoom, gets, ret. cbn [fst snd heap].
  rewrite Hl. apply IH. exact Hls.
Qed.

(** C3: whenever no stored layer satisfies the activation condition,
    [get_color] does not return the background: [curr_layer] is still
    [None] when its [get_color] is called, and the method raises
    [AttributeError], leaving the store as it was. *)
Theorem C3_get_color_without_valid_layer_raises :
  forall (w : World SequenceLayerStore.t) (start timestamp x y : Z),
    forallb (fun l => negb (activated (heap w) start timestamp l))
            (ArraySortedList.values (SequenceLayerStore.layers (self w))) = true ->
    SequenceLayerStore.get_color start timestamp x y w
    = (Raise (AttributeError "get_color"), w).
Proof.
  intros w start timestamp x y Hall.
  unfold SequenceLayerStore.get_color, with_locals.
  fold (collect_body start timestamp).
  unfold bind at 1. unfold on_world at 1, zoom, gets. cbn [fst snd].
  unfold bind at 1. rewrite collect_none by exact Hall.
  destruct w; reflexivity.
Qed.

(** The freshly constructed store is such a store. *)
Lemma C3_witness :
  SequenceLayerStore.get_color 0 0 0 0 (mkWorld heap_abc SequenceLayerStore.init)
  = (Raise (AttributeError "get_color"), mkWorld heap_abc SequenceLayerStore.init).
Proof.
  apply (C3_get_color_without_valid_layer_raises
           (mkWorld heap_abc SequenceLayerStore.init) 0 0 0 0).
  reflexivity.
Defined.

(** ** [AdditiveLayerStore.erase] *)

(** C4: after [add(A); add(B)], [erase(0)] takes B off the stack and A
    off the queue; [get_color], which reads the stack, then shows A's
    contribution and not B's. *)
Theorem C4_erase_first_after_two_adds :
  let w := snd (add_all [A; B] (mkWorld heap_abc AdditiveLayerStore.init)) in
  let r := AdditiveLayerStore.erase 0 w in
  fst r = Return VNone /\
  stack_order (self (snd r)) = [A] /\
  queue_order (self (snd r)) = [B] /\
  fst (AdditiveLayerStore.get_color (10, 10, 10) 0 0 0 (snd r))
    = Return (11, 10, 10) /\
  Color_add (10, 10, 10) (AdditiveLayerStore.layer_color heap_abc B)
    = (10, 12, 10).
Proof. vm_compute. repeat split; reflexivity. Qed.

(** ** [special] on a freshly constructed store *)

(** C5: on the freshly constructed stores, [SetLayerStore.special]
    returns and leaves the store as constructed, while
    [AdditiveLayerStore.special] and [SequenceLayerStore.special] both
    raise. *)
Theorem C5_special_on_fresh_store :
  forall h : Heap,
    SetLayerStore.special (mkWorld h SetLayerStore.init)
      = (Return VNone, mkWorld h SetLayerStore.init) /\
    AdditiveLayerStore.special (mkWorld h AdditiveLayerStore.init)
      = (Raise (Exception "Stack is empty"), mkWorld h AdditiveLayerStore.init) /\
    SequenceLayerStore.special (mkWorld h SequenceLayerStore.init)
      = (Raise (NameError "CircularQueueQueue"), mkWorld h SequenceLayerStore.init).
Proof. intros. repeat split; reflexivity. Qed.

(** ** [erase] of what is not there *)

(** In the single-slot store, erasing a layer whose slot is null returns
    [False] and changes nothing. *)
Lemma set_erase_absent (w : World SetLayerStore.t) (l : loc) :
  let i := Layer.index (heap w l) in
  ArrayR.in_range (SetLayerStore.layers (self w)) i = true ->
  nth (Z.to_nat i) (SetLayerStore.layers (self w)) None = None ->
  SetLayerStore.erase (Some l) w = (Return (VBool false), w).
Proof.
  destruct w as [h [cur slots]]. simpl. intros Hr Hn.
  unfold SetLayerStore.erase, bind, getattr, gets, SetLayerStore.on_layers,
    on_self, zoom, ArrayR.getitem. simpl.
  rewrite Hr, Hn. reflexivity.
Qed.

(** In the sequence store, erasing a layer that is not stored returns
    [False] and changes nothing. *)
Lemma seq_erase_absent (w : World SequenceLayerStore.t) (o : option loc) :
  ArraySortedList.contains o (SequenceLayerStore.layers (self w)) = false ->
  SequenceLayerStore.erase o w = (Return (VBool false), w).
Proof.
  intros Hc.
  unfold SequenceLayerStore.erase, SequenceLayerStore.contains, bind, gets.
  rewrite Hc. reflexivity.
Qed.

(** C6: in the additive store holding A and B, [erase(5)] names no
    stored position, yet it returns [None], not [False], and hands the
    stack back in the order B, A. *)
Theorem C6_additive_erase_absent :
  let w := snd (add_all [A; B] (mkWorld heap_abc AdditiveLayerStore.init)) in
  let r := AdditiveLayerStore.erase 5 w in
  fst r = Return VNone /\
  fst r <> Return (VBool false) /\
  stack_order (self w) = [A; B] /\
  stack_order (self (snd r)) = [B; A] /\
  queue_order (self (snd r)) = [A; B].
Proof. vm_compute. repeat split; try reflexivity; discriminate. Qed.

(** ** The slots of [SetLayerStore] *)

(** C9: the freshly constructed single-slot store satisfies the
    invariant; after [add(A); add(B)] the current layer is B while the
    slots of A and of B are both non-null, so the invariant is lost; a
    following [erase(A)] returns [True] and unsets the current layer
    while B's slot stays non-null. *)
Theorem C9_two_adds_break_invariant :
  let w0 := mkWorld heap_abc SetLayerStore.init in
  let w2 := snd ((SetLayerStore.add A ;;; SetLayerStore.add B) w0) in
  let r3 := SetLayerStore.erase A w2 in
  single_slot_invariant w0 /\
  SetLayerStore.layer (self w2) = B /\
  occupied (self w2) = [0; 1] /\
  ~ single_slot_invariant w2 /\
  fst r3 = Return (VBool true) /\
  SetLayerStore.layer (self (snd r3)) = None /\
  occupied (self (snd r3)) = [1] /\
  ~ single_slot_invariant (snd r3).
Proof.
  vm_compute. repeat split; try reflexivity; discriminate.
Qed.

(** ** [SetLayerStore.special]: one pass over the slots *)

Lemma set_special_body_at (h : Heap) (cur : option loc)
    (pre suf : list (option loc)) (o : option loc) :
  set_special_body (Z.of_nat (List.length pre))
    (mkWorld h (SetLayerStore.mk cur (pre ++ o :: suf)))
  = (Return Continue,
     mkWorld (invert_slot h o) (SetLayerStore.mk cur (pre ++ o :: suf))).
Proof.
  unfold set_special_body, bind, SetLayerStore.on_layers, on_self, zoom,
    ArrayR.getitem.
  cbn [self heap SetLayerStore.layers SetLayerStore.layer].
  assert (Hr : ArrayR.in_range (pre ++ o :: suf) (Z.of_nat (List.length pre)) = true).
  { unfold ArrayR.in_range, ArrayR.len. rewrite length_app. cbn [List.length].
    apply andb_true_intro. split; [apply Z.leb_le | apply Z.ltb_lt]; lia. }
  rewrite Hr, Nat2Z.id, nth_middle.
  destruct o as [l|]; reflexivity.
Qed.

Lemma set_special_loop (cur : option loc) (suf : list (option loc)) :
  forall (h : Heap) (pre : list (option loc)),
    for_each (map Z.of_nat (seq (List.length pre) (List.length suf)))
      set_special_body (mkWorld h (SetLayerStore.mk cur (pre ++ suf)))
    = (Return tt,
       mkWorld (invert_slots suf h) (SetLayerStore.mk cur (pre ++ suf))).
Proof.
  induction suf as [|o suf IH]; intros h pre.
  - reflexivity.
  - cbn [List.length seq map for_each]. unfold bind at 1.
    rewrite set_special_body_at.
    specialize (IH (invert_slot h o) (pre ++ [o])).
    rewrite length_app, <- app_assoc in IH. cbn [List.length app] in IH.
    rewrite Nat.add_1_r in IH. exact IH.
Qed.

(** [special] always returns; it leaves [self] as it was and inverts, in
    the heap, the [apply] of the layer of every non-null slot. *)
Lemma set_special_run (h : Heap) (cur : option loc) (slots : list (option loc)) :
  SetLayerStore.special (mkWorld h (SetLayerStore.mk cur slots))
  = (Return VNone, mkWorld (invert_slots slots h) (SetLayerStore.mk cur slots)).
Proof.
  unfold SetLayerStore.special. unfold bind at 1, gets at 1.
  cbn [self SetLayerStore.layers]. unfold range, ArrayR.len. rewrite Nat2Z.id.
  unfold bind at 1.
  change (for_each (map Z.of_nat (seq 0 (List.length slots))) _) with
    (for_each (map Z.of_nat (seq 0 (List.length slots))) set_special_body).
  pose proof (set_special_loop cur slots h []) as H.
  cbn [app List.length] in H. rewrite H. reflexivity.
Qed.

Lemma invert_slots_apply (slots : list (option loc)) :
  forall (h : Heap) (l : loc),
    Layer.apply (invert_slots slots h l)
    = Nat.iter (hits l slots) SetLayerStore.invert_color (Layer.apply (h l)).
Proof.
  induction slots as [|o slots IH]; intros h l.
  - reflexivity.
  - unfold invert_slots in *. cbn [fold_left]. rewrite IH.
    destruct o as [l'|]; cbn [hits invert_slot]; [|reflexivity].
    unfold upd. destruct (Nat.eqb l l') eqn:E; [|reflexivity].
    apply Nat.eqb_eq in E. subst l'.
    cbn [Layer.set_apply Layer.apply]. rewrite Nat.iter_succ_r. reflexivity.
Qed.

Lemma invert_slots_fixed (slots : list (option loc)) :
  forall (h : Heap) (l : loc),
    fixed_fields (invert_slots slots h l) = fixed_fields (h l).
Proof.
  induction slots as [|o slots IH]; intros h l.
  - reflexivity.
  - unfold invert_slots in *. cbn [fold_left]. rewrite IH.
    destruct o as [l'|]; cbn [invert_slot]; [|reflexivity].
    unfold upd. destruct (Nat.eqb l l') eqn:E; [|reflexivity].
    apply Nat.eqb_eq in E. subst l'. reflexivity.
Qed.

Lemma iter_invert_color (n : nat) (f : Color -> Z -> Z -> Z -> Color)
    (c : Color) (t x y : Z) :
  Nat.iter n SetLayerStore.invert_color f c t x y
  = Nat.iter n invert_triple (f c t x y).
Proof.
  induction n as [|n IH]; [reflexivity|].
  cbn [Nat.iter nat_rect]. unfold SetLayerStore.invert_color at 1.
  change (nat_rect _ f (fun _ => SetLayerStore.invert_color) n)
    with (Nat.iter n SetLayerStore.invert_color f).
  rewrite IH. reflexivity.
Qed.

Lemma invert_triple_involutive (c : Color) :
  invert_triple (invert_triple c) = c.
Proof. destruct c as [[r g] b]. unfold invert_triple. f_equal; [f_equal|]; lia. Qed.

Lemma iter_invert_twice (n : nat) (c : Color) :
  Nat.iter n invert_triple (Nat.iter n invert_triple c) = c.
Proof.
  revert c. induction n as [|n IH]; intros c; [reflexivity|].
  rewrite Nat.iter_succ, Nat.iter_succ_r, IH.
  apply invert_triple_involutive.
Qed.

(** C8: in every state of the single-slot store, two [special()] calls
    in succession both return, leave the store's own fields as they
    were, and leave the output of [get_color] for every base color,
    timestamp and position equal to its output before the two calls. *)
Theorem C8_special_twice_keeps_get_color :
  forall (w : World SetLayerStore.t) (c : Color) (timestamp x y : Z),
    let r := (SetLayerStore.special ;;; SetLayerStore.special) w in
    fst r = Return VNone /\
    self (snd r) = self w /\
    fst (SetLayerStore.get_color c timestamp x y (snd r))
    = fst (SetLayerStore.get_color c timestamp x y w).
Proof.
  intros [h [cur slots]] c timestamp x y. unfold bind.
  rewrite set_special_run, set_special_run. cbn [fst snd self].
  split; [reflexivity|]. split; [reflexivity|].
  unfold SetLayerStore.get_color, bind, getattr, gets, ret.
  cbn [fst snd self heap SetLayerStore.layer].
  destruct cur as [l|]; [|reflexivity].
  cbn [fst heap]. f_equal.
  rewrite !invert_slots_apply, !iter_invert_color.
  apply iter_invert_twice.
Qed.

(** ** [AdditiveLayerStore.get_color]: the two loops *)

Ltac run_step :=
  unfold bind, AdditiveLayerStore.stack_, AdditiveLayerStore.queue_,
    AdditiveLayerStore.temp_stack_, on_world, on_locals, on_self, zoom,
    gets, modify, ret, ArrayStack.is_empty, ArrayStack.pop, ArrayStack.push,
    ArrayStack.top, ArrayStack.peek, ArrayStack.is_full,
    CircularQueue.is_empty, CircularQueue.serve, CircularQueue.append,
    CircularQueue.is_full;
  cbn [fst snd heap self AdditiveLayerStore.stack AdditiveLayerStore.queue
       AdditiveLayerStore.temp_stack AdditiveLayerStore.color
       ArrayStack.items ArrayStack.max_capacity
       CircularQueue.items CircularQueue.max_capacity].

Section GetColorLoops.
Variable h : Heap.
Variable q : CircularQueue.t (option loc).

Let world (stk : list (option loc)) (cap : option nat)
  : World AdditiveLayerStore.t :=
  mkWorld h (AdditiveLayerStore.mk (ArrayStack.mk stk cap) q).

Let locals (c : Color) (tmp : list (option loc)) (cap : option nat)
  : AdditiveLayerStore.get_color_locals :=
  AdditiveLayerStore.mkGL c (ArrayStack.mk tmp cap).

Lemma drain_cond_run L stk cap :
  drain_cond (L, world stk cap)
  = (Return (match stk with [] => false | _ => true end), (L, world stk cap)).
Proof. unfold drain_cond, world. run_step. destruct L, stk; reflexivity. Qed.

Lemma drain_body_run o stk tmp c cap :
  (List.length tmp < 100)%nat ->
  drain_body (locals c tmp (Some 100%nat), world (o :: stk) cap)
  = (Return tt,
     (locals (Color_add c (AdditiveLayerStore.layer_color h o)) (o :: tmp)
             (Some 100%nat),
      world stk cap)).
Proof.
  intros Hlen. unfold drain_body, world, locals. run_step.
  apply Nat.leb_gt in Hlen. rewrite Hlen. reflexivity.
Qed.

Lemma drain_loop cap :
  forall stk tmp c,
    (List.length stk + List.length tmp <= 100)%nat ->
    while_fuel (List.length stk) drain_cond drain_body
      (locals c tmp (Some 100%nat), world stk cap)
    = (Return tt,
       (locals (acc_colors h stk c) (rev stk ++ tmp) (Some 100%nat),
        world [] cap)).
Proof.
  induction stk as [|o stk IH]; intros tmp c Hlen.
  - cbn [List.length while_fuel]. unfold bind.
    rewrite drain_cond_run. reflexivity.
  - cbn [List.length while_fuel] in *. unfold bind at 1.
    rewrite drain_cond_run. unfold bind at 1.
    rewrite drain_body_run by lia.
    rewrite IH by (cbn [List.length]; lia).
    cbn [rev acc_colors fold_left]. rewrite <- app_assoc. reflexivity.
Qed.

Lemma refill_cond_run c tmp capt W :
  refill_cond (locals c tmp capt, W)
  = (Return (match tmp with [] => false | _ => true end),
     (locals c tmp capt, W)).
Proof. unfold refill_cond, locals. run_step. destruct tmp; reflexivity. Qed.

Lemma refill_body_run o stk tmp c capt :
  (List.length stk < 100)%nat ->
  refill_body (locals c (o :: tmp) capt, world stk (Some 100%nat))
  = (Return tt, (locals c tmp capt, world (o :: stk) (Some 100%nat))).
Proof.
  intros Hlen. unfold refill_body, world, locals. run_step.
  apply Nat.leb_gt in Hlen. rewrite Hlen. reflexivity.
Qed.

Lemma refill_loop c capt :
  forall tmp stk,
    (List.length tmp + List.length stk <= 100)%nat ->
    while_fuel (List.length tmp) refill_cond refill_body
      (locals c tmp capt, world stk (Some 100%nat))
    = (Return tt, (locals c [] capt, world (rev tmp ++ stk) (Some 100%nat))).
Proof.
  induction tmp as [|o tmp IH]; intros stk Hlen.
  - cbn [List.length while_fuel]. unfold bind.
    rewrite refill_cond_run. reflexivity.
  - cbn [List.length while_fuel] in *. unfold bind at 1.
    rewrite refill_cond_run. unfold bind at 1.
    rewrite refill_body_run by lia.
    rewrite IH by (cbn [List.length]; lia).
    cbn [rev]. rewrite <- app_assoc. reflexivity.
Qed.

(** On a stack within its capacity, [get_color] returns the
    accumulated color and hands the store back as it found it. *)
Lemma get_color_run stk bg x y z :
  (List.length stk <= 100)%nat ->
  AdditiveLayerStore.get_color bg x y z (world stk (Some 100%nat))
  = (Return (acc_colors h stk bg), world stk (Some 100%nat)).
Proof.
  intros Hlen. unfold AdditiveLayerStore.get_color, with_locals.
  fold drain_cond drain_body refill_cond refill_body.
  unfold bind at 1. unfold while_ at 1. unfold ArrayStack.create, world.
  cbn [fst snd self AdditiveLayerStore.stack ArrayStack.items].
  pose proof (drain_loop (Some 100%nat) stk [] bg) as Hd.
  unfold world, locals in Hd. rewrite Hd by (cbn [List.length]; lia).
  unfold bind at 1. unfold while_ at 1.
  cbn [fst snd AdditiveLayerStore.temp_stack ArrayStack.items].
  rewrite length_app, length_rev. cbn [List.length]. rewrite Nat.add_0_r.
  pose proof (refill_loop (acc_colors h stk bg) (Some 100%nat) (rev stk) []) as Hr.
  rewrite length_rev, rev_involutive, app_nil_r in Hr.
  cbn [List.length] in Hr. unfold world, locals in Hr.
  rewrite app_nil_r. rewrite Hr by lia. reflexivity.
Qed.
End GetColorLoops.

(** ** [AdditiveLayerStore.get_color]: the sum and its order *)

Lemma Color_add_comm (c d : Color) : Color_add c d = Color_add d c.
Proof.
  destruct c as [[r1 g1] b1], d as [[r2 g2] b2]. unfold Color_add.
  f_equal; [f_equal|]; lia.
Qed.

Lemma Color_add_assoc (c d e : Color) :
  Color_add c (Color_add d e) = Color_add (Color_add c d) e.
Proof.
  destruct c as [[r1 g1] b1], d as [[r2 g2] b2], e as [[r3 g3] b3].
  unfold Color_add. f_equal; [f_equal|]; lia.
Qed.

Lemma acc_colors_sum (h : Heap) (ls : list (option loc)) :
  forall c, acc_colors h ls c = Color_add c (sum_colors h ls).
Proof.
  induction ls as [|o ls IH]; intros c.
  - destruct c as [[r g] b]. unfold acc_colors, sum_colors, Color_add.
    cbn [fold_left fold_right]. f_equal; [f_equal|]; lia.
  - unfold acc_colors, sum_colors in *. cbn [fold_left fold_right].
    rewrite IH, Color_add_assoc. reflexivity.
Qed.

Lemma sum_colors_perm (h : Heap) (l1 l2 : list (option loc)) :
  Permutation l1 l2 -> sum_colors h l1 = sum_colors h l2.
Proof.
  induction 1 as [|o l1 l2 _ IH|o1 o2 l|l1 l2 l3 _ IH1 _ IH2].
  - reflexivity.
  - unfold sum_colors in *. cbn [fold_right]. rewrite IH. reflexivity.
  - unfold sum_colors. cbn [fold_right].
    rewrite !Color_add_assoc.
    rewrite (Color_add_comm (AdditiveLayerStore.layer_color h o2)).
    reflexivity.
  - rewrite IH1. exact IH2.
Qed.

(** [add] called on each element of [ls] in turn, within the capacity
    of both containers: the stack and the queue both receive [ls]. *)
Lemma add_all_run (h : Heap) (ls : list (option loc)) :
  forall stk qs : list (option loc),
    (List.length stk + List.length ls <= 100)%nat ->
    (List.length qs + List.length ls <= 100)%nat ->
    add_all ls
      (mkWorld h (AdditiveLayerStore.mk (ArrayStack.mk stk (Some 100%nat))
                                        (CircularQueue.mk qs 100)))
    = (Return tt,
       mkWorld h (AdditiveLayerStore.mk
                    (ArrayStack.mk (rev ls ++ stk) (Some 100%nat))
                    (CircularQueue.mk (qs ++ ls) 100))).
Proof.
  induction ls as [|o ls IH]; intros stk qs Hs Hq.
  - cbn [add_all rev app]. rewrite app_nil_r. reflexivity.
  - cbn [add_all List.length] in *. unfold bind at 1.
    unfold AdditiveLayerStore.add. run_step.
    assert (E1 : Nat.leb 100 (List.length stk) = false) by (apply Nat.leb_gt; lia).
    assert (E2 : Nat.leb 100 (List.length qs) = false) by (apply Nat.leb_gt; lia).
    rewrite E1. run_step. rewrite E2. run_step.
    rewrite IH by (try rewrite length_app; cbn [List.length]; lia).
    cbn [rev]. rewrite <- !app_assoc. reflexivity.
Qed.

(** C7: on every additive store whose stack is within its capacity,
    [get_color(background, ...)] returns the background plus the
    channel-wise sum of the colors of the stored layers and leaves the
    store as it was; and two sequences of [add] calls that are
    permutations of one another, made on the freshly constructed store,
    give stores on which [get_color] returns that same sum. *)
Theorem C7_get_color_is_order_free_sum :
  forall (h : Heap) (stk : list (option loc)) (q : CircularQueue.t (option loc))
         (l1 l2 : list (option loc)) (bg : Color) (x y z : Z),
    (List.length stk <= 100)%nat ->
    Permutation l1 l2 ->
    (List.length l1 <= 100)%nat ->
    let w := mkWorld h (AdditiveLayerStore.mk (ArrayStack.mk stk (Some 100%nat)) q) in
    let r1 := add_all l1 (mkWorld h AdditiveLayerStore.init) in
    let r2 := add_all l2 (mkWorld h AdditiveLayerStore.init) in
    AdditiveLayerStore.get_color bg x y z w
      = (Return (Color_add bg (sum_colors h stk)), w) /\
    fst r1 = Return tt /\
    fst r2 = Return tt /\
    stack_order (self (snd r1)) = l1 /\
    stack_order (self (snd r2)) = l2 /\
    fst (AdditiveLayerStore.get_color bg x y z (snd r1))
      = Return (Color_add bg (sum_colors h l1)) /\
    fst (AdditiveLayerStore.get_color bg x y z (snd r2))
      = Return (Color_add bg (sum_colors h l1)).
Proof.
  intros h stk q l1 l2 bg x y z Hstk Hperm Hl1.
  assert (Hl2 : (List.length l2 <= 100)%nat)
    by (rewrite <- (Permutation_length Hperm); exact Hl1).
  cbn zeta. split.
  { rewrite get_color_run by exact Hstk. rewrite acc_colors_sum. reflexivity. }
  unfold AdditiveLayerStore.init, ArrayStack.create, CircularQueue.create.
  rewrite !add_all_run by (cbn [List.length]; lia).
  cbn [fst snd self app]. unfold stack_order.
  cbn [AdditiveLayerStore.stack ArrayStack.items].
  rewrite !app_nil_r, !rev_involutive.
  repeat split.
  - rewrite get_color_run by (rewrite length_rev; exact Hl1).
    rewrite acc_colors_sum. cbn [fst]. do 2 f_equal.
    apply sum_colors_perm. symmetry. apply Permutation_rev.
  - rewrite get_color_run by (rewrite length_rev; exact Hl2).
    rewrite acc_colors_sum. cbn [fst]. do 2 f_equal.
    apply sum_colors_perm. rewrite <- Permutation_rev. symmetry. exact Hperm.
Qed.

(** The theorem at a store holding C and A, and at the add sequences
    A, B and B, A. *)
Lemma C7_witness :
  AdditiveLayerStore.get_color (10, 10, 10) 0 0 0
    (mkWorld heap_abc
       (AdditiveLayerStore.mk (ArrayStack.mk [C; A] (Some 100%nat))
                              (CircularQueue.mk [A] 100)))
  = (Return (11, 10, 14),
     mkWorld heap_abc
       (AdditiveLayerStore.mk (ArrayStack.mk [C; A] (Some 100%nat))
                              (CircularQueue.mk [A] 100))) /\
  fst (AdditiveLayerStore.get_color (10, 10, 10) 0 0 0
         (snd (add_all [A; B] (mkWorld heap_abc AdditiveLayerStore.init))))
  = Return (11, 12, 10) /\
  fst (AdditiveLayerStore.get_color (10, 10, 10) 0 0 0
         (snd (add_all [B; A] (mkWorld heap_abc AdditiveLayerStore.init))))
  = Return (11, 12, 10).
Proof.
  assert (Hlen : (2 <= 100)%nat) by lia.
  pose proof (C7_get_color_is_order_free_sum heap_abc [C; A]
                (CircularQueue.mk [A] 100) [A; B] [B; A] (10, 10, 10) 0 0 0
                Hlen (perm_swap B A []) Hlen) as H.
  cbn zeta in H.
  destruct H as (H0 & _ & _ & _ & _ & H1 & H2).
  split; [exact H0|]. split; [exact H1 | exact H2].
Defined.

(** ** What the methods leave alone *)

Section Preserves.
Context {S X : Type} (f : S -> X).

Lemma preserves_ret {A} (a : A) : preserves f (ret a).
Proof. intros s. reflexivity. Qed.

Lemma preserves_raise {A} (e : exn) : preserves f (raise (A := A) e).
Proof. intros s. reflexivity. Qed.

Lemma preserves_gets {A} (g : S -> A) : preserves f (gets g).
Proof. intros s. reflexivity. Qed.

Lemma preserves_lookup_global (globals : list string) (name : string) :
  preserves f (lookup_global globals name).
Proof. intros s. unfold lookup_global. destruct (existsb _ _); reflexivity. Qed.

Lemma preserves_modify (g : S -> S) :
  (forall s, f (g s) = f s) -> preserves f (modify g).
Proof. intros H s. apply H. Qed.

Lemma preserves_bind {A B} (m : M S A) (k : A -> M S B) :
  preserves f m -> (forall a, preserves f (k a)) -> preserves f (bind m k).
Proof.
  intros Hm Hk s. unfold bind. specialize (Hm s).
  destruct (m s) as [[a|e] s']; cbn [snd] in *.
  - rewrite Hk. exact Hm.
  - exact Hm.
Qed.

Lemma preserves_for_each {A} (xs : list A) (body : A -> M S ctl) :
  (forall x, preserves f (body x)) -> preserves f (for_each xs body).
Proof.
  intros Hb. induction xs as [|x xs IH]; cbn [for_each].
  - apply preserves_ret.
  - apply preserves_bind; [apply Hb|]. intros [|]; [exact IH | apply preserves_ret].
Qed.

Lemma preserves_while_fuel (fuel : nat) (cond : M S bool) (body : M S unit) :
  preserves f cond -> preserves f body ->
  preserves f (while_fuel fuel cond body).
Proof.
  intros Hc Hb. induction fuel as [|fuel IH]; cbn [while_fuel].
  - apply preserves_bind; [exact Hc|].
    intros [|]; [apply preserves_raise | apply preserves_ret].
  - apply preserves_bind; [exact Hc|]. intros [|]; [|apply preserves_ret].
    apply preserves_bind; [exact Hb|]. intros _. exact IH.
Qed.

Lemma preserves_while (measure : S -> nat) (cond : M S bool) (body : M S unit) :
  preserves f cond -> preserves f body ->
  preserves f (while_ measure cond body).
Proof. intros Hc Hb s. unfold while_. apply preserves_while_fuel; assumption. Qed.

Lemma preserves_zoom_frame {T A} (rd : S -> T) (wr : T -> S -> S) (m : M T A) :
  (forall t s, f (wr t s) = f s) -> preserves f (zoom rd wr m).
Proof. intros H s. unfold zoom. destruct (m (rd s)). apply H. Qed.

Lemma preserves_with_locals {L A} (init : L) (m : M (L * S) A) :
  preserves (fun s => f (snd s)) m -> preserves f (with_locals init m).
Proof.
  intros H s. unfold with_locals. specialize (H (init, s)).
  destruct (m (init, s)). exact H.
Qed.

Lemma preserves_on_locals {L A} (m : M L A) :
  preserves (fun s : L * S => f (snd s)) (on_locals m).
Proof. intros s. unfold on_locals, zoom. destruct (m (fst s)). reflexivity. Qed.

Lemma preserves_on_world {L A} (m : M S A) :
  preserves f m -> preserves (fun s : L * S => f (snd s)) (on_world m).
Proof.
  intros H s. unfold on_world, zoom. specialize (H (snd s)).
  destruct (m (snd s)). exact H.
Qed.
End Preserves.

Lemma preserves_on_self {St A} (m : M St A) : preserves heap (on_self m).
Proof. apply preserves_zoom_frame. reflexivity. Qed.

Lemma preserves_getattr {St A X} (f : World St -> X) (attr : string)
    (g : Layer.t -> A) (o : option loc) :
  preserves f (getattr attr g o).
Proof. destruct o; [apply preserves_gets | apply preserves_raise]. Qed.

(** One step of the search for why a method body keeps the heap: by the
    shape of the body. *)
Ltac keeps_step :=
  first
    [ apply preserves_ret | apply preserves_raise | apply preserves_gets
    | apply preserves_getattr | apply preserves_lookup_global
    | apply preserves_on_self | apply preserves_on_locals
    | apply preserves_on_world | apply preserves_with_locals
    | apply preserves_for_each; intros
    | apply preserves_while
    | apply preserves_bind; [|intros]
    | match goal with
      | |- preserves _ (match ?x with _ => _ end) => destruct x
      end ].

Ltac keeps := repeat keeps_step.

Section KeepsHeap.
Import SetLayerStore.

Lemma set_add_keeps_heap o : preserves heap (SetLayerStore.add o).
Proof. unfold add, on_layers, set_layer. keeps. Qed.

Lemma set_erase_keeps_heap o : preserves heap (SetLayerStore.erase o).
Proof. unfold erase, on_layers, set_layer. keeps. Qed.

Lemma set_get_color_keeps_heap c t x y :
  preserves heap (SetLayerStore.get_color c t x y).
Proof. unfold get_color. keeps. Qed.
End KeepsHeap.

Create HintDb keeps_heap.
#[local] Hint Resolve set_add_keeps_heap set_erase_keeps_heap
  set_get_color_keeps_heap : keeps_heap.

Ltac keeps_all :=
  repeat first
    [ solve [auto with keeps_heap nocore]
    | apply preserves_modify; intros; reflexivity
    | keeps_step ].

Lemma add_keeps_heap o : preserves heap (AdditiveLayerStore.add o).
Proof.
  unfold AdditiveLayerStore.add, AdditiveLayerStore.stack_,
    AdditiveLayerStore.queue_.
  keeps_all.
Qed.

Lemma add_special_keeps_heap : preserves heap AdditiveLayerStore.special.
Proof.
  unfold AdditiveLayerStore.special, AdditiveLayerStore.stack_,
    AdditiveLayerStore.queue_.
  keeps_all.
Qed.

Lemma add_get_color_keeps_heap c x y z :
  preserves heap (AdditiveLayerStore.get_color c x y z).
Proof.
  unfold AdditiveLayerStore.get_color, AdditiveLayerStore.stack_,
    AdditiveLayerStore.temp_stack_.
  keeps_all.
Qed.

Lemma add_erase_keeps_heap i : preserves heap (AdditiveLayerStore.erase i).
Proof.
  unfold AdditiveLayerStore.erase, AdditiveLayerStore.stack_,
    AdditiveLayerStore.queue_.
  keeps_all.
Qed.

Lemma seq_add_keeps_heap o : preserves heap (SequenceLayerStore.add o).
Proof.
  unfold SequenceLayerStore.add, SequenceLayerStore.contains,
    SequenceLayerStore.layers_.
  keeps_all.
Qed.

Lemma seq_erase_keeps_heap o : preserves heap (SequenceLayerStore.erase o).
Proof.
  unfold SequenceLayerStore.erase, SequenceLayerStore.contains,
    SequenceLayerStore.layers_.
  keeps_all.
Qed.

#[local] Hint Resolve seq_erase_keeps_heap : keeps_heap.

Lemma seq_get_color_keeps_heap s t x y :
  preserves heap (SequenceLayerStore.get_color s t x y).
Proof.
  unfold SequenceLayerStore.get_color, SequenceLayerStore.call_get_color,
    SequenceLayerStore.valid_layers_, SequenceLayerStore.set_curr_layer,
    SequenceLayerStore.set_color.
  keeps_all.
Qed.

Lemma seq_special_in_keeps_heap globals :
  preserves heap (SequenceLayerStore.special_in globals).
Proof.
  unfold SequenceLayerStore.special_in, SequenceLayerStore.layer_queue_,
    SequenceLayerStore.sort_queue_by_name.
  keeps_all.
Qed.

(** ** Layers as the stores leave them *)

(** C10, as stated, fails: after [add(A)] on the single-slot store,
    [special()] assigns to the [apply] attribute of the layer A itself,
    which then maps the base color (0, 0, 0) to (254, 255, 255) instead
    of (1, 0, 0). *)
Lemma C10_set_special_assigns_apply :
  let w := snd (SetLayerStore.add A (mkWorld heap_abc SetLayerStore.init)) in
  let w' := snd (SetLayerStore.special w) in
  Layer.apply (heap w 0%nat) (0, 0, 0) 0 0 0 = (1, 0, 0) /\
  Layer.apply (heap w' 0%nat) (0, 0, 0) 0 0 0 = (254, 255, 255) /\
  heap w' 0%nat <> heap w 0%nat.
Proof.
  cbn zeta. split; [reflexivity|]. split; [reflexivity|].
  intros H.
  apply (f_equal (fun l => Layer.apply l (0, 0, 0) 0 0 0)) in H.
  vm_compute in H. discriminate H.
Qed.

(** C10, amended: [add], [erase] and [get_color] of the three stores,
    and [special] of the additive and of the sequence store, leave every
    layer exactly as it was, whether they return or raise;
    [SetLayerStore.special] leaves the index, name, color, thresholds
    and [get_color] of every layer as they were and replaces the [apply]
    of a layer by its color inversion once for each slot that holds the
    layer. *)
Theorem C10_only_set_special_assigns_to_layers :
  (forall o, preserves heap (SetLayerStore.add o)) /\
  (forall o, preserves heap (SetLayerStore.erase o)) /\
  (forall c t x y, preserves heap (SetLayerStore.get_color c t x y)) /\
  (forall o, preserves heap (AdditiveLayerStore.add o)) /\
  (forall i, preserves heap (AdditiveLayerStore.erase i)) /\
  (forall c x y z, preserves heap (AdditiveLayerStore.get_color c x y z)) /\
  preserves heap AdditiveLayerStore.special /\
  (forall o, preserves heap (SequenceLayerStore.add o)) /\
  (forall o, preserves heap (SequenceLayerStore.erase o)) /\
  (forall s t x y, preserves heap (SequenceLayerStore.get_color s t x y)) /\
  preserves heap SequenceLayerStore.special /\
  (forall (w : World SetLayerStore.t) (l : loc),
      let w' := snd (SetLayerStore.special w) in
      fixed_fields (heap w' l) = fixed_fields (heap w l) /\
      Layer.apply (heap w' l)
      = Nat.iter (hits l (SetLayerStore.layers (self w)))
                 SetLayerStore.invert_color (Layer.apply (heap w l))).
Proof.
  repeat match goal with |- _ /\ _ => split end.
  - exact set_add_keeps_heap.
  - exact set_erase_keeps_heap.
  - exact set_get_color_keeps_heap.
  - exact add_keeps_heap.
  - exact add_erase_keeps_heap.
  - exact add_get_color_keeps_heap.
  - exact add_special_keeps_heap.
  - exact seq_add_keeps_heap.
  - exact seq_erase_keeps_heap.
  - exact seq_get_color_keeps_heap.
  - exact (seq_special_in_keeps_heap module_globals).
  - intros [h [cur slots]] l. cbn zeta. rewrite set_special_run.
    cbn [snd heap self SetLayerStore.layers]. split.
    + apply invert_slots_fixed.
    + apply invert_slots_apply.
Qed.

(** ** [AdditiveLayerStore.special] and [erase(0)] on every store *)

Section Rotate.
Variable h : Heap.
Variable stack : ArrayStack.t (option loc).

Let world (qs : list (option loc)) : World AdditiveLayerStore.t :=
  mkWorld h (AdditiveLayerStore.mk stack (CircularQueue.mk qs 100)).

Lemma rotate_body_run i x qs :
  (List.length qs < 100)%nat ->
  rotate_body i (world (x :: qs)) = (Return Continue, world (qs ++ [x])).
Proof.
  intros Hlen. unfold rotate_body, world. run_step.
  apply Nat.leb_gt in Hlen. rewrite Hlen. reflexivity.
Qed.

Lemma rotate_loop (idxs : list Z) :
  forall qs,
    (List.length idxs <= List.length qs)%nat ->
    (List.length qs <= 100)%nat ->
    for_each idxs rotate_body (world qs)
    = (Return tt,
       world (skipn (List.length idxs) qs ++ firstn (List.length idxs) qs)).
Proof.
  induction idxs as [|i idxs IH]; intros qs Hk Hcap.
  - cbn [for_each List.length skipn firstn]. rewrite app_nil_r. reflexivity.
  - destruct qs as [|x qs]; cbn [List.length] in *; [lia|].
    cbn [for_each]. unfold bind at 1.
    rewrite rotate_body_run by lia.
    rewrite IH by (rewrite length_app; cbn [List.length]; lia).
    cbn [skipn firstn].
    rewrite skipn_app, firstn_app.
    replace (List.length idxs - List.length qs)%nat with O by lia.
    cbn [skipn firstn]. rewrite app_nil_r, <- app_assoc. reflexivity.
Qed.
End Rotate.

(** On every non-empty additive store with room for one more queue
    entry, [special] returns, leaves the stack as it was and puts a
    second reference to the top layer at the front of the queue. *)
Lemma add_special_run (h : Heap) (o : option loc) (stk qs : list (option loc)) :
  (List.length stk < 100)%nat ->
  (List.length qs < 100)%nat ->
  AdditiveLayerStore.special
    (mkWorld h (AdditiveLayerStore.mk (ArrayStack.mk (o :: stk) (Some 100%nat))
                                      (CircularQueue.mk qs 100)))
  = (Return VNone,
     mkWorld h (AdditiveLayerStore.mk (ArrayStack.mk (o :: stk) (Some 100%nat))
                                      (CircularQueue.mk (o :: qs) 100))).
Proof.
  intros Hs Hq. unfold AdditiveLayerStore.special.
  fold rotate_body.
  unfold bind at 1. run_step.
  assert (E1 : Nat.leb 100 (List.length stk) = false) by (apply Nat.leb_gt; lia).
  assert (E2 : Nat.leb 100 (List.length qs) = false) by (apply Nat.leb_gt; lia).
  rewrite E1. run_step. rewrite E2. run_step.
  unfold CircularQueue.len. cbn [CircularQueue.items].
  unfold range.
  replace (Z.to_nat (Z.of_nat (List.length (qs ++ [o])) - 1)) with (List.length qs)
    by (rewrite length_app; cbn [List.length]; lia).
  pose proof (rotate_loop h (ArrayStack.mk (o :: stk) (Some 100%nat))
                (map Z.of_nat (seq 0 (List.length qs))) (qs ++ [o])) as H.
  rewrite length_map, length_seq, length_app in H. cbn [List.length] in H.
  rewrite H by lia.
  rewrite skipn_app, firstn_app, skipn_all, firstn_all, Nat.sub_diag.
  cbn [skipn firstn app]. rewrite app_nil_r. reflexivity.
Qed.

Lemma range_succ (n : nat) :
  range (Z.of_nat (S n)) = 0 :: map Z.of_nat (seq 1 n).
Proof. unfold range. rewrite Nat2Z.id. reflexivity. Qed.

(** On every non-empty additive store, [erase(0)] takes the top of the
    stack, the layer added last, and the front of the queue, the layer
    added first. *)
Lemma add_erase_first_run (h : Heap) (cap : option nat) (o : option loc)
    (stk qs : list (option loc)) (qcap : nat) :
  AdditiveLayerStore.erase 0
    (mkWorld h (AdditiveLayerStore.mk (ArrayStack.mk (o :: stk) cap)
                                      (CircularQueue.mk qs qcap)))
  = (Return VNone,
     mkWorld h (AdditiveLayerStore.mk (ArrayStack.mk stk cap)
                                      (CircularQueue.mk (tl qs) qcap))).
Proof.
  unfold AdditiveLayerStore.erase, with_locals.
  unfold bind at 1. unfold on_world at 1, zoom at 1, gets at 1.
  cbn [fst snd self AdditiveLayerStore.stack].
  unfold ArrayStack.len. cbn [ArrayStack.items List.length].
  rewrite range_succ. cbn [for_each]. cbn [Z.eqb].
  unfold while_, CircularQueue.create.
  run_step. cbn [List.length while_fuel].
  run_step. cbn [negb]. unfold raise. cbn [fst snd self AdditiveLayerStore.queue].
  unfold CircularQueue.len. cbn [CircularQueue.items].
  destruct qs as [|x qs].
  - cbn [List.length Z.of_nat]. unfold range. cbn [Z.to_nat seq map for_each].
    run_step. cbn [List.length while_fuel]. run_step. reflexivity.
  - change (Z.of_nat (List.length (x :: qs))) with (Z.of_nat (S (List.length qs))).
    rewrite range_succ. cbn [for_each Z.eqb]. run_step.
    cbn [List.length while_fuel]. run_step. reflexivity.
Qed.

(** * Further properties of the code *)

(** ** [Grid.__init__] *)

Lemma for_each_skip {S A} (xs : list A) (body : A -> M S ctl) (s : S) :
  (forall x, body x s = (Return Continue, s)) ->
  for_each xs body s = (Return tt, s).
Proof.
  intros H. induction xs as [|x xs IH]; [reflexivity|].
  cbn [for_each]. unfold bind. rewrite H. exact IH.
Qed.

(** A draw style of [DRAW_STYLE_OPTIONS] is none of the three strings
    the inner loop compares it with. *)
Lemma option_style (ds : string) :
  In ds Grid.DRAW_STYLE_OPTIONS ->
  existsb (String.eqb ds) Grid.DRAW_STYLE_OPTIONS = true /\
  String.eqb ds "Set" = false /\ String.eqb ds "Additive" = false /\
  String.eqb ds "Sequential" = false.
Proof.
  intros [H|[H|[H|[]]]]; subst ds; repeat split; reflexivity.
Qed.

Lemma set_nth_middle {A : Type} (p s : list (option A)) (a b : option A) :
  ArrayR.set_nth (List.length p) b (p ++ a :: s) = p ++ b :: s.
Proof.
  induction p as [|c p IH]; [reflexivity|].
  cbn [List.length app ArrayR.set_nth]. rewrite IH. reflexivity.
Qed.

Lemma in_range_middle {A : Type} (p s : list (option A)) (a : option A) :
  ArrayR.in_range (p ++ a :: s) (Z.of_nat (List.length p)) = true.
Proof.
  unfold ArrayR.in_range, ArrayR.len. rewrite length_app. cbn [List.length].
  apply andb_true_intro. split; [apply Z.leb_le | apply Z.ltb_lt]; lia.
Qed.

Section InitLoops.
Variable ds : string.
Hypothesis Hds : In ds Grid.DRAW_STYLE_OPTIONS.
Variable printed : list string.
Variable x y : Z.

Let world (g : ArrayR.t (ArrayR.t Grid.cell)) : Grid.world :=
  Grid.mkW printed
    (Grid.mk (Some ds) (Some Grid.DEFAULT_BRUSH_SIZE) (Some x) (Some y) (Some g)).

Lemma init_cell_skip i j g :
  init_cell i j (world g) = (Return Continue, world g).
Proof.
  destruct (option_style ds Hds) as (_ & E1 & E2 & E3).
  unfold init_cell, world, bind, Grid.attr. cbn [Grid.obj Grid.draw_style].
  rewrite E1. cbn [Grid.obj Grid.draw_style]. rewrite E2.
  cbn [Grid.obj Grid.draw_style]. rewrite E3. reflexivity.
Qed.

Lemma init_row_run (pre suf : list (option (ArrayR.t Grid.cell))) o :
  init_row (Z.of_nat (List.length pre)) (world (pre ++ o :: suf))
  = (Return Continue,
     world (pre ++ Some (ArrayR.create (Z.to_nat y)) :: suf)).
Proof.
  unfold init_row, world.
  unfold bind at 1. unfold Grid.attr at 1. cbn [Grid.obj Grid.cols].
  unfold bind at 1. unfold Grid.grid_, ArrayR.setitem.
  cbn [Grid.obj Grid.grid]. rewrite in_range_middle, Nat2Z.id, set_nth_middle.
  cbn [Grid.stdout Grid.obj Grid.draw_style Grid.brush_size Grid.rows Grid.cols].
  unfold bind at 1. unfold Grid.attr at 1. cbn [Grid.obj Grid.cols].
  unfold bind at 1.
  rewrite for_each_skip by (intros j; apply init_cell_skip).
  reflexivity.
Qed.

Lemma init_rows_run (m : nat) :
  forall pre : list (option (ArrayR.t Grid.cell)),
    for_each (map Z.of_nat (seq (List.length pre) m)) init_row
      (world (pre ++ repeat None m))
    = (Return tt,
       world (pre ++ repeat (Some (ArrayR.create (Z.to_nat y))) m)).
Proof.
  induction m as [|m IH]; intros pre.
  - reflexivity.
  - cbn [seq map for_each repeat]. unfold bind at 1.
    rewrite init_row_run.
    specialize (IH (pre ++ [Some (ArrayR.create (Z.to_nat y))])).
    rewrite length_app, <- !app_assoc in IH. cbn [List.length app] in IH.
    rewrite Nat.add_1_r in IH. exact IH.
Qed.
End InitLoops.

Lemma init_by_rows (ds : string) (x y : Z) :
  Grid.init ds x y
  = ((if existsb (String.eqb ds) Grid.DRAW_STYLE_OPTIONS
      then Grid.set_draw_style ds
      else Grid.print "Draw style not correct") ;;;
     Grid.set_brush_size Grid.DEFAULT_BRUSH_SIZE ;;;
     Grid.set_rows x ;;;
     Grid.set_cols y ;;;
     r <- Grid.attr "rows" Grid.rows ;;
     Grid.set_grid (ArrayR.create (Z.to_nat r)) ;;;
     r <- Grid.attr "rows" Grid.rows ;;
     for_each (range r) init_row).
Proof. reflexivity. Qed.

Lemma grid_init_valid_style (ds : string) (x y : Z) (printed : list string) :
  In ds Grid.DRAW_STYLE_OPTIONS ->
  Grid.construct ds x y printed
  = (Return tt,
     Grid.mkW printed
       (Grid.mk (Some ds) (Some 1) (Some x) (Some y) (Some (empty_grid x y)))).
Proof.
  intros Hds. destruct (option_style ds Hds) as (E & _).
  unfold Grid.construct. rewrite init_by_rows, E.
  unfold bind, Grid.set_draw_style, Grid.set_brush_size, Grid.set_rows,
    Grid.set_cols, Grid.set_grid, Grid.assign, modify, Grid.attr, Grid.blank.
  cbn [Grid.obj Grid.stdout Grid.draw_style Grid.brush_size Grid.rows Grid.cols
       Grid.grid].
  unfold range.
  pose proof (init_rows_run ds Hds printed x y (Z.to_nat x) []) as H.
  cbn [app List.length] in H. unfold ArrayR.create at 1. rewrite H.
  reflexivity.
Qed.

(** X1: constructed with a draw style of [DRAW_STYLE_OPTIONS] and
    positive dimensions, the grid has brush size 1 and [x] rows of [y]
    squares, and no square holds a layer store: the loop compares the
    style with "Set", "Additive" and "Sequential", which no option
    equals.  Nothing is printed. *)
Theorem X1_grid_of_valid_style_has_no_store :
  forall (ds : string) (x y : Z) (printed : list string),
    In ds Grid.DRAW_STYLE_OPTIONS ->
    0 < x -> 0 < y ->
    Grid.construct ds x y printed
    = (Return tt,
       Grid.mkW printed
         (Grid.mk (Some ds) (Some 1) (Some x) (Some y) (Some (empty_grid x y)))).
Proof.
  intros ds x y printed Hds _ _. apply grid_init_valid_style. exact Hds.
Qed.

(** A 2 by 3 grid of style "SET". *)
Lemma X1_witness :
  Grid.construct "SET" 2 3 []
  = (Return tt,
     Grid.mkW []
       (Grid.mk (Some "SET") (Some 1) (Some 2) (Some 3)
          (Some [Some [None; None; None]; Some [None; None; None]]))).
Proof.
  apply (X1_grid_of_valid_style_has_no_store "SET" 2 3 []).
  - left. reflexivity.
  - reflexivity.
  - reflexivity.
Defined.

Lemma not_option_style (ds : string) :
  ~ In ds Grid.DRAW_STYLE_OPTIONS ->
  existsb (String.eqb ds) Grid.DRAW_STYLE_OPTIONS = false.
Proof.
  intros Hn. destruct (existsb _ _) eqn:E; [|reflexivity].
  apply existsb_exists in E. destruct E as (o & Hin & Heq).
  apply String.eqb_eq in Heq. subst o. contradiction.
Qed.

Lemma grid_init_unknown_style (ds : string) (x y : Z) (printed : list string) :
  ~ In ds Grid.DRAW_STYLE_OPTIONS ->
  0 < x -> 0 < y ->
  Grid.construct ds x y printed
  = (Raise (AttributeError "draw_style"),
     Grid.mkW (printed ++ ["Draw style not correct"])
       (Grid.mk None (Some 1) (Some x) (Some y)
          (Some (Some (ArrayR.create (Z.to_nat y))
                 :: repeat None (Nat.pred (Z.to_nat x)))))).
Proof.
  intros Hds Hx Hy.
  unfold Grid.construct. rewrite init_by_rows, (not_option_style ds Hds).
  destruct (Z.to_nat x) as [|n] eqn:Ex; [lia|].
  destruct (Z.to_nat y) as [|m] eqn:Ey; [lia|].
  unfold bind, Grid.print, Grid.set_brush_size, Grid.set_rows,
    Grid.set_cols, Grid.set_grid, Grid.assign, modify, Grid.attr, Grid.blank.
  cbn [Grid.obj Grid.stdout Grid.draw_style Grid.brush_size Grid.rows Grid.cols
       Grid.grid].
  unfold range. rewrite Ex. cbn [seq map for_each].
  unfold bind at 1. unfold init_row at 1.
  unfold bind at 1. unfold Grid.attr at 1. cbn [Grid.obj Grid.cols].
  unfold bind at 1. unfold Grid.grid_, ArrayR.setitem.
  cbn [Grid.obj Grid.grid Grid.stdout Grid.draw_style Grid.brush_size
       Grid.rows Grid.cols].
  unfold ArrayR.create at 1. cbn [repeat].
  change (ArrayR.in_range (None :: repeat None n) (Z.of_nat 0))
    with (ArrayR.in_range (@nil (option (ArrayR.t Grid.cell)) ++ None :: repeat None n)
            (Z.of_nat (List.length (@nil (option (ArrayR.t Grid.cell)))))).
  rewrite in_range_middle. cbn [Z.of_nat Z.to_nat ArrayR.set_nth].
  unfold bind at 1. unfold Grid.attr at 1. cbn [Grid.obj Grid.cols].
  unfold bind at 1. unfold range. rewrite Ey. cbn [seq map for_each].
  unfold bind at 1. unfold init_cell at 1.
  unfold bind at 1. unfold Grid.attr at 1. cbn [Grid.obj Grid.draw_style].
  reflexivity.
Qed.

(** X2: constructed with a draw style outside [DRAW_STYLE_OPTIONS] and
    positive dimensions, the grid prints its complaint, never assigns
    [draw_style], and raises [AttributeError] at the first square, where
    the attribute is read; the object is left with its brush size set
    and only its first row allocated. *)
Theorem X2_grid_of_unknown_style_raises :
  forall (ds : string) (x y : Z) (printed : list string),
    ~ In ds Grid.DRAW_STYLE_OPTIONS ->
    0 < x -> 0 < y ->
    let r := Grid.construct ds x y printed in
    fst r = Raise (AttributeError "draw_style") /\
    Grid.stdout (snd r) = printed ++ ["Draw style not correct"] /\
    Grid.draw_style (Grid.obj (snd r)) = None /\
    Grid.brush_size (Grid.obj (snd r)) = Some 1 /\
    Grid.grid (Grid.obj (snd r))
    = Some (Some (ArrayR.create (Z.to_nat y))
            :: repeat None (Nat.pred (Z.to_nat x))).
Proof.
  intros ds x y printed Hds Hx Hy. cbn zeta.
  rewrite (grid_init_unknown_style ds x y printed Hds Hx Hy).
  repeat split; reflexivity.
Qed.

(** A 2 by 3 grid of style "some", as the sandbox constructs one. *)
Lemma X2_witness :
  fst (Grid.construct "some" 2 3 []) = Raise (AttributeError "draw_style") /\
  Grid.stdout (snd (Grid.construct "some" 2 3 [])) = ["Draw style not correct"].
Proof.
  assert (Hn : ~ In "some" Grid.DRAW_STYLE_OPTIONS).
  { intros [H|[H|[H|[]]]]; discriminate H. }
  pose proof (X2_grid_of_unknown_style_raises "some" 2 3 [] Hn eq_refl eq_refl)
    as H.
  cbn zeta in H. destruct H as (H1 & H2 & _). split; [exact H1 | exact H2].
Defined.

(** ** [Grid.__getitem__] and the brush *)

Lemma nth_repeat_some {A : Type} (a : A) (n k : nat) :
  (k < n)%nat -> nth k (repeat (Some a) n) None = Some a.
Proof.
  revert k. induction n as [|n IH]; intros k Hk; [lia|].
  destruct k as [|k]; [reflexivity|]. cbn [repeat nth]. apply IH. lia.
Qed.



(** The brush size after one action. *)
Lemma brush_call_run (op : brush_op) (out : list string) (ds : option string)
    (b : Z) (r c : option Z) (g : option (ArrayR.t (ArrayR.t Grid.cell))) :
  brush_call op (Grid.mkW out (Grid.mk ds (Some b) r c g))
  = (Return tt,
     Grid.mkW out
       (Grid.mk ds
          (Some match op with
                | Increase => if b <? Grid.MAX_BRUSH then b + 1 else b
                | Decrease => if b >? Grid.MIN_BRUSH then b - 1 else b
                end) r c g)).
Proof.
  destruct op; unfold brush_call, Grid.increase_brush_size,
    Grid.decrease_brush_size, bind, Grid.attr;
    cbn [Grid.obj Grid.brush_size].
  - destruct (b <? Grid.MAX_BRUSH); reflexivity.
  - destruct (b >? Grid.MIN_BRUSH); reflexivity.
Qed.

(** X4: from a brush size within [MIN_BRUSH .. MAX_BRUSH], every
    sequence of [increase_brush_size] and [decrease_brush_size] calls
    returns, leaves the brush size within those bounds, and changes no
    other attribute of the grid. *)
Theorem X4_brush_size_stays_in_bounds :
  forall (ops : list brush_op) (w : Grid.world) (b : Z),
    Grid.brush_size (Grid.obj w) = Some b ->
    Grid.MIN_BRUSH <= b <= Grid.MAX_BRUSH ->
    exists b' : Z,
      Grid.MIN_BRUSH <= b' <= Grid.MAX_BRUSH /\
      brush_calls ops w
      = (Return tt,
         Grid.mkW (Grid.stdout w)
           (Grid.mk (Grid.draw_style (Grid.obj w)) (Some b')
                    (Grid.rows (Grid.obj w)) (Grid.cols (Grid.obj w))
                    (Grid.grid (Grid.obj w)))).
Proof.
  induction ops as [|op ops IH]; intros [out [ds bs r c g]] b Hb Hrange;
    cbn [Grid.obj Grid.brush_size Grid.stdout Grid.draw_style Grid.rows
         Grid.cols Grid.grid] in *; subst bs.
  - exists b. split; [exact Hrange | reflexivity].
  - cbn [brush_calls]. unfold bind. rewrite brush_call_run.
    set (b1 := match op with
               | Increase => if b <? Grid.MAX_BRUSH then b + 1 else b
               | Decrease => if b >? Grid.MIN_BRUSH then b - 1 else b
               end).
    assert (H1 : Grid.MIN_BRUSH <= b1 <= Grid.MAX_BRUSH).
    { subst b1. unfold Grid.MIN_BRUSH, Grid.MAX_BRUSH in *. destruct op.
      - destruct (Z.ltb_spec b 5); lia.
      - destruct (Z.gtb_spec b 0); lia. }
    destruct (IH (Grid.mkW out (Grid.mk ds (Some b1) r c g)) b1 eq_refl H1)
      as (b' & Hb' & Hrun).
    exists b'. split; [exact Hb' | exact Hrun].
Qed.

Lemma X4_witness :
  exists b' : Z,
    0 <= b' <= 5 /\
    brush_calls [Increase; Increase; Decrease]
      (snd (Grid.construct "SET" 1 1 []))
    = (Return tt,
       Grid.mkW []
         (Grid.mk (Some "SET") (Some b') (Some 1) (Some 1) (Some [Some [None]]))).
Proof.
  apply (X4_brush_size_stays_in_bounds [Increase; Increase; Decrease]
           (snd (Grid.construct "SET" 1 1 [])) 1).
  - reflexivity.
  - split; discriminate.
Defined.

(** X5: from a brush size within bounds, [increase_brush_size] followed
    by [decrease_brush_size] restores the brush size when it was below
    [MAX_BRUSH]; at [MAX_BRUSH] the increase does nothing and the pair
    leaves [MAX_BRUSH - 1]. *)
Theorem X5_increase_then_decrease :
  forall (w : Grid.world) (b : Z),
    Grid.brush_size (Grid.obj w) = Some b ->
    Grid.MIN_BRUSH <= b <= Grid.MAX_BRUSH ->
    brush_calls [Increase; Decrease] w
    = (Return tt,
       Grid.mkW (Grid.stdout w)
         (Grid.mk (Grid.draw_style (Grid.obj w))
                  (Some (if b <? Grid.MAX_BRUSH then b else Grid.MAX_BRUSH - 1))
                  (Grid.rows (Grid.obj w)) (Grid.cols (Grid.obj w))
                  (Grid.grid (Grid.obj w)))).
Proof.
  intros [out [ds bs r c g]] b Hb Hrange.
  cbn [Grid.obj Grid.brush_size Grid.stdout Grid.draw_style Grid.rows
       Grid.cols Grid.grid] in *; subst bs.
  cbn [brush_calls]. unfold bind. rewrite !brush_call_run.
  unfold ret. do 4 f_equal.
  unfold Grid.MIN_BRUSH, Grid.MAX_BRUSH in *.
  destruct (Z.ltb_spec b 5).
  - destruct (Z.gtb_spec (b + 1) 0); lia.
  - destruct (Z.gtb_spec b 0); lia.
Qed.

Lemma X5_witness :
  brush_calls [Increase; Decrease]
    (Grid.mkW [] (Grid.mk (Some "SET") (Some 5) (Some 1) (Some 1) None))
  = (Return tt,
     Grid.mkW [] (Grid.mk (Some "SET") (Some 4) (Some 1) (Some 1) None)).
Proof.
  apply (X5_increase_then_decrease
           (Grid.mkW [] (Grid.mk (Some "SET") (Some 5) (Some 1) (Some 1) None)) 5).
  - reflexivity.
  - split; discriminate.
Defined.

(** ** [SetLayerStore]: what its calls do to the slots *)

Lemma set_add_run (h : Heap) (cur : option loc) (slots : ArrayR.t loc) (l : loc) :
  SetLayerStore.add (Some l) (mkWorld h (SetLayerStore.mk cur slots))
  = if ArrayR.in_range slots (Layer.index (h l))
    then (Return (VBool true),
          mkWorld h (SetLayerStore.mk (Some l)
                       (ArrayR.set_nth (Z.to_nat (Layer.index (h l))) (Some l) slots)))
    else (Raise IndexError, mkWorld h (SetLayerStore.mk cur slots)).
Proof.
  unfold SetLayerStore.add, bind, getattr, gets, SetLayerStore.on_layers,
    SetLayerStore.set_layer, on_self, zoom, ArrayR.setitem, modify, ret.
  cbn [heap self SetLayerStore.layers SetLayerStore.layer].
  destruct (ArrayR.in_range slots (Layer.index (h l))); reflexivity.
Qed.

Lemma set_erase_run (h : Heap) (cur : option loc) (slots : ArrayR.t loc) (l : loc) :
  SetLayerStore.erase (Some l) (mkWorld h (SetLayerStore.mk cur slots))
  = if ArrayR.in_range slots (Layer.index (h l))
    then match nth (Z.to_nat (Layer.index (h l))) slots None with
         | Some _ =>
             (Return (VBool true),
              mkWorld h (SetLayerStore.mk None
                           (ArrayR.set_nth (Z.to_nat (Layer.index (h l))) None slots)))
         | None => (Return (VBool false), mkWorld h (SetLayerStore.mk cur slots))
         end
    else (Raise IndexError, mkWorld h (SetLayerStore.mk cur slots)).
Proof.
  unfold SetLayerStore.erase, bind, getattr, gets, SetLayerStore.on_layers,
    SetLayerStore.set_layer, on_self, zoom, ArrayR.getitem, ArrayR.setitem,
    modify, ret.
  cbn [heap self SetLayerStore.layers SetLayerStore.layer].
  destruct (ArrayR.in_range slots (Layer.index (h l))) eqn:E; [|reflexivity].
  destruct (nth (Z.to_nat (Layer.index (h l))) slots None); [|reflexivity].
  cbn [heap self SetLayerStore.layers SetLayerStore.layer]. rewrite E.
  reflexivity.
Qed.

Lemma set_get_color_run (w : World SetLayerStore.t) (c : Color) (t x y : Z) :
  SetLayerStore.get_color c t x y w
  = (Return match SetLayerStore.layer (self w) with
            | Some l => Layer.apply (heap w l) c t x y
            | None => c
            end, w).
Proof.
  unfold SetLayerStore.get_color, bind, getattr, gets, ret.
  destruct (SetLayerStore.layer (self w)); reflexivity.
Qed.

Lemma length_set_nth {A} (n : nat) (x : option A) (a : ArrayR.t A) :
  List.length (ArrayR.set_nth n x a) = List.length a.
Proof.
  revert n. induction a as [|y a IH]; intros n; [destruct n; reflexivity|].
  destruct n; cbn [ArrayR.set_nth List.length]; [reflexivity|].
  rewrite IH. reflexivity.
Qed.

Lemma nth_set_nth {A} (n i : nat) (x : option A) (a : ArrayR.t A) :
  (n < List.length a)%nat ->
  nth i (ArrayR.set_nth n x a) None = if Nat.eqb i n then x else nth i a None.
Proof.
  revert n i. induction a as [|y a IH]; intros n i Hn; cbn [List.length] in Hn; [lia|].
  destruct n, i; cbn [ArrayR.set_nth nth Nat.eqb]; try reflexivity.
  apply IH. lia.
Qed.

Lemma in_range_nat {A} (a : ArrayR.t A) (i : Z) :
  ArrayR.in_range a i = true ->
  0 <= i /\ (Z.to_nat i < List.length a)%nat.
Proof.
  unfold ArrayR.in_range, ArrayR.len. intros H.
  apply andb_prop in H. destruct H as [H1 H2].
  apply Z.leb_le in H1. apply Z.ltb_lt in H2. lia.
Qed.

Lemma set_call_ok (op : set_op) (w : World SetLayerStore.t) :
  set_store_ok w -> set_store_ok (set_call op w).
Proof.
  destruct w as [h [cur slots]]. intros (Hlen & Hslots & Hcur).
  unfold slot_of in *. cbn [heap self SetLayerStore.layers SetLayerStore.layer] in *.
  assert (Hsame : set_store_ok (mkWorld h (SetLayerStore.mk cur slots))).
  { repeat split; assumption. }
  destruct op as [[l|]|[l|]|c t x y|]; unfold set_call.
  - rewrite set_add_run.
    destruct (ArrayR.in_range slots (Layer.index (h l))) eqn:E; [|exact Hsame].
    apply in_range_nat in E. destruct E as [E0 E1].
    cbn [snd]. unfold set_store_ok, slot_of.
    cbn [heap self SetLayerStore.layers SetLayerStore.layer].
    split; [rewrite length_set_nth; exact Hlen|]. split.
    + intros i l'. rewrite nth_set_nth by exact E1.
      destruct (Nat.eqb i (Z.to_nat (Layer.index (h l)))) eqn:Ei.
      * intros H. injection H as <-. apply Nat.eqb_eq in Ei. lia.
      * apply Hslots.
    + intros l' H. injection H as <-. rewrite nth_set_nth by exact E1.
      rewrite Nat.eqb_refl. reflexivity.
  - exact Hsame.
  - rewrite set_erase_run.
    destruct (ArrayR.in_range slots (Layer.index (h l))) eqn:E; [|exact Hsame].
    apply in_range_nat in E. destruct E as [E0 E1].
    destruct (nth (Z.to_nat (Layer.index (h l))) slots None) eqn:En; [|exact Hsame].
    cbn [snd]. unfold set_store_ok, slot_of.
    cbn [heap self SetLayerStore.layers SetLayerStore.layer].
    split; [rewrite length_set_nth; exact Hlen|]. split.
    + intros i l'. rewrite nth_set_nth by exact E1.
      destruct (Nat.eqb i (Z.to_nat (Layer.index (h l)))); [discriminate|].
      apply Hslots.
    + discriminate.
  - exact Hsame.
  - rewrite set_get_color_run. exact Hsame.
  - rewrite set_special_run. cbn [snd]. unfold set_store_ok, slot_of.
    cbn [heap self SetLayerStore.layers SetLayerStore.layer].
    assert (Hidx : forall l, Layer.index (invert_slots slots h l) = Layer.index (h l)).
    { intros l. pose proof (invert_slots_fixed slots h l) as H.
      unfold fixed_fields in H. congruence. }
    split; [exact Hlen|]. split.
    + intros i l H. rewrite Hidx. apply Hslots. exact H.
    + intros l H. rewrite Hidx. apply Hcur. exact H.
Qed.

Lemma set_calls_ok (ops : list set_op) :
  forall w, set_store_ok w -> set_store_ok (set_calls ops w).
Proof.
  induction ops as [|op ops IH]; intros w Hw; [exact Hw|].
  unfold set_calls. cbn [fold_left]. apply IH. apply set_call_ok. exact Hw.
Qed.

Lemma set_init_ok (h : Heap) : set_store_ok (mkWorld h SetLayerStore.init).
Proof.
  unfold set_store_ok. cbn [self heap SetLayerStore.init SetLayerStore.layers
    SetLayerStore.layer]. split; [reflexivity|]. split.
  - intros i l H. exfalso. unfold ArrayR.create in H.
    assert (Hn : forall n k, nth k (repeat (@None loc) n) None = None).
    { induction n; destruct k; cbn; auto. }
    rewrite Hn in H. discriminate.
  - discriminate.
Qed.

Lemma hits_none (l : loc) (slots : list (option loc)) :
  (forall i, nth i slots None <> Some l) -> hits l slots = 0%nat.
Proof.
  induction slots as [|o slots IH]; intros H; [reflexivity|].
  assert (IH' : hits l slots = 0%nat) by (apply IH; intros i; apply (H (S i))).
  destruct o as [l'|]; cbn [hits]; [|exact IH'].
  destruct (Nat.eqb l l') eqn:E; [|exact IH'].
  apply Nat.eqb_eq in E. subst l'. exfalso. apply (H 0%nat). reflexivity.
Qed.

Lemma hits_one (l : loc) (slots : list (option loc)) :
  forall p : nat,
    (forall i, nth i slots None = Some l -> i = p) ->
    nth p slots None = Some l ->
    hits l slots = 1%nat.
Proof.
  induction slots as [|o slots IH]; intros p Hall Hp.
  - destruct p; discriminate Hp.
  - destruct p as [|p].
    + cbn [nth] in Hp. subst o. cbn [hits]. rewrite Nat.eqb_refl.
      rewrite hits_none; [reflexivity|].
      intros i Hi. specialize (Hall (S i) Hi). discriminate.
    + cbn [nth] in Hp.
      assert (Ho : o <> Some l).
      { intros ->. specialize (Hall 0%nat eq_refl). discriminate. }
      assert (IH' : hits l slots = 1%nat).
      { apply (IH p); [|exact Hp]. intros i Hi.
        specialize (Hall (S i) Hi). lia. }
      destruct o as [l'|]; cbn [hits]; [|exact IH'].
      destruct (Nat.eqb l l') eqn:E; [|exact IH'].
      apply Nat.eqb_eq in E. subst l'. contradiction.
Qed.

(** X6: whatever sequence of [add], [erase], [get_color] and [special]
    calls is made on a freshly constructed single-slot store, returning
    or raising, the slot array keeps its 20 slots, every non-null slot
    holds a layer whose index is the slot's, and the current layer, when
    set, is the layer in the slot of its index. *)
Theorem X6_set_store_keeps_its_slots :
  forall (ops : list set_op) (h : Heap),
    set_store_ok (set_calls ops (mkWorld h SetLayerStore.init)).
Proof. intros ops h. apply set_calls_ok, set_init_ok. Qed.

(** The slot array of a reachable store has 20 slots. *)
Lemma set_calls_in_range (ops : list set_op) (h : Heap) (i : Z) :
  ArrayR.in_range
    (SetLayerStore.layers (self (set_calls ops (mkWorld h SetLayerStore.init)))) i
  = (0 <=? i) && (i <? 20).
Proof.
  pose proof (set_calls_ok ops _ (set_init_ok h)) as (Hlen & _).
  unfold ArrayR.in_range, ArrayR.len. rewrite Hlen. reflexivity.
Qed.

(** X7: on every store reached from a fresh one, [add] of a layer whose
    index is within 0..19 returns [True], and [get_color] then returns
    what that layer's [apply] gives, whatever was stored before. *)
Theorem X7_set_add_then_get_color :
  forall (ops : list set_op) (h : Heap) (w : World SetLayerStore.t)
         (l : loc) (c : Color) (t x y : Z),
    w = set_calls ops (mkWorld h SetLayerStore.init) ->
    0 <= Layer.index (heap w l) < 20 ->
    fst (SetLayerStore.add (Some l) w) = Return (VBool true) /\
    fst ((SetLayerStore.add (Some l) ;;; SetLayerStore.get_color c t x y) w)
    = Return (Layer.apply (heap w l) c t x y).
Proof.
  intros ops h w l c t x y Hw Hidx.
  pose proof (set_calls_in_range ops h (Layer.index (heap w l))) as E.
  rewrite <- Hw in E. clear Hw. destruct w as [h' [cur slots]].
  cbn [heap self SetLayerStore.layers] in *.
  assert (E' : ArrayR.in_range slots (Layer.index (h' l)) = true).
  { rewrite E. apply andb_true_intro.
    split; [apply Z.leb_le | apply Z.ltb_lt]; lia. }
  unfold bind. rewrite set_add_run, E'.
  split; [reflexivity|]. rewrite set_get_color_run. reflexivity.
Qed.

(** After [add(A)], [add(B)] shows B. *)
Lemma X7_witness :
  fst ((SetLayerStore.add B ;;; SetLayerStore.get_color (9, 9, 9) 0 0 0)
         (set_calls [SetAdd A] (mkWorld heap_abc SetLayerStore.init)))
  = Return (0, 2, 0).
Proof.
  refine (proj2 (X7_set_add_then_get_color [SetAdd A] heap_abc _ 1%nat
                   (9, 9, 9) 0 0 0 eq_refl _)).
  split; [discriminate | reflexivity].
Defined.



(** X9: on every store reached from a fresh one, [add] of a layer of
    index within 0..19 followed by [erase] of the same layer returns
    [True], unsets the current layer and empties its slot, and
    [get_color] then returns the base color unchanged. *)
Theorem X9_set_add_then_erase :
  forall (ops : list set_op) (h : Heap) (w : World SetLayerStore.t)
         (l : loc) (c : Color) (t x y : Z),
    w = set_calls ops (mkWorld h SetLayerStore.init) ->
    0 <= Layer.index (heap w l) < 20 ->
    fst ((SetLayerStore.add (Some l) ;;; SetLayerStore.erase (Some l)) w)
    = Return (VBool true) /\
    SetLayerStore.layer
      (self (snd ((SetLayerStore.add (Some l) ;;; SetLayerStore.erase (Some l)) w)))
    = None /\
    nth (slot_of w l)
      (SetLayerStore.layers
         (self (snd ((SetLayerStore.add (Some l) ;;; SetLayerStore.erase (Some l)) w))))
      None
    = None /\
    fst (SetLayerStore.get_color c t x y
           (snd ((SetLayerStore.add (Some l) ;;; SetLayerStore.erase (Some l)) w)))
    = Return c.
Proof.
  intros ops h w l c t x y Hw Hidx.
  pose proof (set_calls_in_range ops h (Layer.index (heap w l))) as E0.
  rewrite <- Hw in E0. clear Hw. unfold slot_of. destruct w as [h' [cur slots]].
  cbn [heap self SetLayerStore.layers] in *.
  assert (E : ArrayR.in_range slots (Layer.index (h' l)) = true).
  { rewrite E0. apply andb_true_intro.
    split; [apply Z.leb_le | apply Z.ltb_lt]; lia. }
  destruct (in_range_nat _ _ E) as [_ Hn].
  assert (E' : ArrayR.in_range
                 (ArrayR.set_nth (Z.to_nat (Layer.index (h' l))) (Some l) slots)
                 (Layer.index (h' l)) = true).
  { unfold ArrayR.in_range, ArrayR.len in *. rewrite length_set_nth. exact E. }
  unfold bind. rewrite set_add_run, E, set_erase_run.
  rewrite E', nth_set_nth, Nat.eqb_refl by exact Hn.
  cbn [fst snd self SetLayerStore.layer SetLayerStore.layers].
  rewrite nth_set_nth, Nat.eqb_refl by (rewrite length_set_nth; exact Hn).
  rewrite set_get_color_run. repeat split; reflexivity.
Qed.

Lemma X9_witness :
  fst (SetLayerStore.get_color (9, 9, 9) 0 0 0
         (snd ((SetLayerStore.add C ;;; SetLayerStore.erase C)
                 (set_calls [SetAdd A] (mkWorld heap_abc SetLayerStore.init)))))
  = Return (9, 9, 9).
Proof.
  refine (proj2 (proj2 (proj2
           (X9_set_add_then_erase [SetAdd A] heap_abc _ 2%nat (9, 9, 9) 0 0 0
              eq_refl _)))).
  split; [discriminate | reflexivity].
Defined.

(** X10: [erase] goes by the slot of the layer's index, not by the
    layer: whenever that slot is non-null, whichever layer it holds and
    whichever layer is current, [erase] returns [True] and unsets the
    current layer, so that [get_color] returns the base color. *)
Theorem X10_set_erase_is_keyed_by_index :
  forall (w : World SetLayerStore.t) (l l' : loc) (c : Color) (t x y : Z),
    ArrayR.in_range (SetLayerStore.layers (self w)) (Layer.index (heap w l)) = true ->
    nth (slot_of w l) (SetLayerStore.layers (self w)) None = Some l' ->
    fst (SetLayerStore.erase (Some l) w) = Return (VBool true) /\
    SetLayerStore.layer (self (snd (SetLayerStore.erase (Some l) w))) = None /\
    fst (SetLayerStore.get_color c t x y (snd (SetLayerStore.erase (Some l) w)))
    = Return c.
Proof.
  intros [h [cur slots]] l l' c t x y E Hn. unfold slot_of in Hn.
  cbn [heap self SetLayerStore.layers] in *.
  rewrite set_erase_run, E, Hn. rewrite set_get_color_run.
  repeat split; reflexivity.
Qed.

(** After [add(A); add(B)], B is current and [erase(A)] unsets it. *)
Lemma X10_witness :
  SetLayerStore.layer
    (self (set_calls [SetAdd A; SetAdd B] (mkWorld heap_abc SetLayerStore.init)))
  = B /\
  fst (SetLayerStore.get_color (9, 9, 9) 0 0 0
         (snd (SetLayerStore.erase A
                 (set_calls [SetAdd A; SetAdd B]
                    (mkWorld heap_abc SetLayerStore.init)))))
  = Return (9, 9, 9).
Proof.
  split; [reflexivity|].
  refine (proj2 (proj2
           (X10_set_erase_is_keyed_by_index
              (set_calls [SetAdd A; SetAdd B] (mkWorld heap_abc SetLayerStore.init))
              0%nat 0%nat (9, 9, 9) 0 0 0 _ _))); reflexivity.
Defined.

(** X11: on every store reached from a fresh one and holding a current
    layer, one [special()] turns the output of [get_color] into its
    inversion, 255 minus each channel of what the layer's [apply] gave
    before. *)
Theorem X11_set_special_inverts_get_color :
  forall (ops : list set_op) (h : Heap) (w : World SetLayerStore.t)
         (l : loc) (c : Color) (t x y : Z),
    w = set_calls ops (mkWorld h SetLayerStore.init) ->
    SetLayerStore.layer (self w) = Some l ->
    fst (SetLayerStore.get_color c t x y w)
    = Return (Layer.apply (heap w l) c t x y) /\
    fst (SetLayerStore.get_color c t x y (snd (SetLayerStore.special w)))
    = Return (invert_triple (Layer.apply (heap w l) c t x y)).
Proof.
  intros ops h w l c t x y Hw Hcur.
  pose proof (set_calls_ok ops _ (set_init_ok h)) as (Hlen & Hslots & Hc).
  rewrite <- Hw in Hlen, Hslots, Hc. clear Hw. unfold slot_of in Hc.
  destruct w as [h' [cur slots]].
  cbn [heap self SetLayerStore.layers SetLayerStore.layer] in *. subst cur.
  rewrite set_special_run, !set_get_color_run.
  cbn [fst snd heap self SetLayerStore.layer].
  split; [reflexivity|]. f_equal.
  rewrite invert_slots_apply, iter_invert_color.
  rewrite (hits_one l slots (Z.to_nat (Layer.index (h' l)))).
  - reflexivity.
  - intros i Hi. specialize (Hslots i l Hi). lia.
  - apply Hc. reflexivity.
Qed.

Lemma X11_witness :
  fst (SetLayerStore.get_color (9, 9, 9) 0 0 0
         (snd (SetLayerStore.special
                 (set_calls [SetAdd A; SetAdd B; SetSpecial]
                    (mkWorld heap_abc SetLayerStore.init)))))
  = Return (0, 2, 0).
Proof.
  refine (proj2 (X11_set_special_inverts_get_color [SetAdd A; SetAdd B; SetSpecial]
                   heap_abc _ 1%nat (9, 9, 9) 0 0 0 eq_refl _)).
  reflexivity.
Defined.

(** ** [AdditiveLayerStore.erase] at every position *)

Lemma erase_by_loops (index : Z) :
  AdditiveLayerStore.erase index
  = with_locals (CircularQueue.create (A := option loc) 100) (
      n <- on_world (gets (fun w => ArrayStack.len (AdditiveLayerStore.stack (self w)))) ;;
      for_each (range n) (erase_stack_body index) ;;;
      while_ (fun s => List.length (CircularQueue.items (fst s)))
        temp_cond restack_body ;;;
      m <- on_world (gets (fun w => CircularQueue.len (AdditiveLayerStore.queue (self w)))) ;;
      for_each (range m) (erase_queue_body index) ;;;
      while_ (fun s => List.length (CircularQueue.items (fst s)))
        temp_cond requeue_body ;;;
      ret VNone).
Proof. reflexivity. Qed.

Section EraseLoops.
Variable h : Heap.
Variable index : Z.

Let state (tq stk qs : list (option loc))
  : CircularQueue.t (option loc) * World AdditiveLayerStore.t :=
  (CircularQueue.mk tq 100,
   mkWorld h (AdditiveLayerStore.mk (ArrayStack.mk stk (Some 100%nat))
                                    (CircularQueue.mk qs 100))).

Lemma erase_stack_body_hit o stk tq qs :
  erase_stack_body index index (state tq (o :: stk) qs)
  = (Return Break, state tq stk qs).
Proof.
  unfold erase_stack_body, state. rewrite Z.eqb_refl. run_step. reflexivity.
Qed.

Lemma erase_stack_body_miss i o stk tq qs :
  i <> index ->
  (List.length tq < 100)%nat ->
  erase_stack_body index i (state tq (o :: stk) qs)
  = (Return Continue, state (tq ++ [o]) stk qs).
Proof.
  intros Hi Hlen. unfold erase_stack_body, state.
  apply Z.eqb_neq in Hi. rewrite Hi. run_step.
  apply Nat.leb_gt in Hlen. rewrite Hlen. reflexivity.
Qed.

Lemma stack_scan_hit (m : nat) rest o qs :
  forall (pre : list (option loc)) (a : nat) (tq : list (option loc)),
    index = Z.of_nat (a + List.length pre) ->
    (List.length tq + List.length pre <= 100)%nat ->
    for_each (map Z.of_nat (seq a (List.length pre + S m)))
      (erase_stack_body index) (state tq (pre ++ o :: rest) qs)
    = (Return tt, state (tq ++ pre) rest qs).
Proof.
  induction pre as [|p pre IH]; intros a tq Hidx Hlen.
  - cbn [List.length Nat.add seq map for_each app]. unfold bind.
    replace (Z.of_nat a) with index by (cbn [List.length] in Hidx; lia).
    rewrite erase_stack_body_hit, app_nil_r. reflexivity.
  - cbn [List.length Nat.add seq map for_each app] in *. unfold bind at 1.
    rewrite erase_stack_body_miss by lia.
    rewrite (IH (S a) (tq ++ [p])) by (try rewrite length_app; cbn [List.length]; lia).
    rewrite <- app_assoc. reflexivity.
Qed.

Lemma stack_scan_miss qs :
  forall (stk : list (option loc)) (a : nat) (tq : list (option loc)),
    (index < Z.of_nat a \/ Z.of_nat (a + List.length stk) <= index) ->
    (List.length tq + List.length stk <= 100)%nat ->
    for_each (map Z.of_nat (seq a (List.length stk)))
      (erase_stack_body index) (state tq stk qs)
    = (Return tt, state (tq ++ stk) [] qs).
Proof.
  induction stk as [|p stk IH]; intros a tq Hidx Hlen.
  - cbn [List.length seq map for_each]. rewrite app_nil_r. reflexivity.
  - cbn [List.length seq map for_each] in *. unfold bind at 1.
    rewrite erase_stack_body_miss by lia.
    rewrite (IH (S a) (tq ++ [p])) by (try rewrite length_app; cbn [List.length]; lia).
    rewrite <- app_assoc. reflexivity.
Qed.

Lemma temp_cond_run tq stk qs :
  temp_cond (state tq stk qs)
  = (Return (match tq with [] => false | _ => true end), state tq stk qs).
Proof. unfold temp_cond, state. run_step. destruct tq; reflexivity. Qed.

Lemma restack_body_run x tq stk qs :
  (List.length stk < 100)%nat ->
  restack_body (state (x :: tq) stk qs) = (Return tt, state tq (x :: stk) qs).
Proof.
  intros Hlen. unfold restack_body, state. run_step.
  apply Nat.leb_gt in Hlen. rewrite Hlen. reflexivity.
Qed.

Lemma restack_loop qs :
  forall tq stk,
    (List.length tq + List.length stk <= 100)%nat ->
    while_fuel (List.length tq) temp_cond restack_body (state tq stk qs)
    = (Return tt, state [] (rev tq ++ stk) qs).
Proof.
  induction tq as [|x tq IH]; intros stk Hlen.
  - cbn [List.length while_fuel]. unfold bind. rewrite temp_cond_run. reflexivity.
  - cbn [List.length while_fuel] in *. unfold bind at 1. rewrite temp_cond_run.
    unfold bind at 1. rewrite restack_body_run by lia.
    rewrite IH by (cbn [List.length]; lia).
    cbn [rev]. rewrite <- app_assoc. reflexivity.
Qed.

Lemma erase_queue_body_hit x stk tq qs :
  erase_queue_body index index (state tq stk (x :: qs))
  = (Return Break, state tq stk qs).
Proof.
  unfold erase_queue_body, state. rewrite Z.eqb_refl. run_step. reflexivity.
Qed.

Lemma erase_queue_body_miss i x stk tq qs :
  i <> index ->
  (List.length qs < 100)%nat ->
  erase_queue_body index i (state tq stk (x :: qs))
  = (Return Continue, state tq stk (qs ++ [x])).
Proof.
  intros Hi Hlen. unfold erase_queue_body, state.
  apply Z.eqb_neq in Hi. rewrite Hi. run_step.
  apply Nat.leb_gt in Hlen. rewrite Hlen. reflexivity.
Qed.

Lemma queue_scan_hit (m : nat) x tq stk :
  forall (qpre : list (option loc)) (a : nat) (tailq : list (option loc)),
    index = Z.of_nat (a + List.length qpre) ->
    (List.length qpre + S (List.length tailq) <= 100)%nat ->
    for_each (map Z.of_nat (seq a (List.length qpre + S m)))
      (erase_queue_body index) (state tq stk (qpre ++ x :: tailq))
    = (Return tt, state tq stk (tailq ++ qpre)).
Proof.
  induction qpre as [|q qpre IH]; intros a tailq Hidx Hlen.
  - cbn [List.length Nat.add seq map for_each app]. unfold bind.
    replace (Z.of_nat a) with index by (cbn [List.length] in Hidx; lia).
    rewrite erase_queue_body_hit, app_nil_r. reflexivity.
  - cbn [List.length Nat.add seq map for_each app] in *. unfold bind at 1.
    rewrite erase_queue_body_miss
      by (try rewrite length_app; cbn [List.length]; lia).
    rewrite <- app_assoc. cbn [app].
    rewrite (IH (S a) (tailq ++ [q]))
      by (try rewrite length_app; cbn [List.length]; lia).
    rewrite <- app_assoc. reflexivity.
Qed.

Lemma queue_scan_miss tq stk :
  forall (idxs : nat) (a : nat) (qs : list (option loc)),
    (index < Z.of_nat a \/ Z.of_nat (a + idxs) <= index) ->
    (idxs <= List.length qs)%nat ->
    (List.length qs <= 100)%nat ->
    for_each (map Z.of_nat (seq a idxs))
      (erase_queue_body index) (state tq stk qs)
    = (Return tt, state tq stk (skipn idxs qs ++ firstn idxs qs)).
Proof.
  induction idxs as [|n IH]; intros a qs Hidx Hn Hlen.
  - cbn [seq map for_each skipn firstn]. rewrite app_nil_r. reflexivity.
  - destruct qs as [|x qs]; cbn [List.length] in *; [lia|].
    cbn [seq map for_each]. unfold bind at 1.
    rewrite erase_queue_body_miss by lia.
    rewrite (IH (S a) (qs ++ [x]))
      by (try rewrite length_app; cbn [List.length]; lia).
    cbn [skipn firstn]. rewrite skipn_app, firstn_app.
    replace (n - List.length qs)%nat with O by lia.
    cbn [skipn firstn]. rewrite app_nil_r, <- app_assoc. reflexivity.
Qed.

Lemma requeue_nothing stk qs :
  while_ (fun s => List.length (CircularQueue.items (fst s)))
    temp_cond requeue_body (state [] stk qs)
  = (Return tt, state [] stk qs).
Proof.
  unfold while_, state. cbn [fst CircularQueue.items List.length while_fuel].
  unfold bind. fold (state [] stk qs). rewrite temp_cond_run. reflexivity.
Qed.

(** [erase(k)] for a position that both containers have. *)
Lemma add_erase_at (pre rest qpre qrest : list (option loc)) (o x : option loc) :
  index = Z.of_nat (List.length pre) ->
  List.length qpre = List.length pre ->
  (List.length pre + S (List.length rest) <= 100)%nat ->
  (List.length qpre + S (List.length qrest) <= 100)%nat ->
  AdditiveLayerStore.erase index (snd (state [] (pre ++ o :: rest) (qpre ++ x :: qrest)))
  = (Return VNone, snd (state [] (rev pre ++ rest) (qrest ++ qpre))).
Proof.
  intros Hidx Hq Hs Hql. rewrite erase_by_loops. unfold with_locals, state. cbn [snd].
  unfold bind at 1. unfold on_world at 1, zoom at 1, gets at 1.
  cbn [fst snd self AdditiveLayerStore.stack].
  unfold ArrayStack.len, range. cbn [ArrayStack.items]. rewrite Nat2Z.id.
  rewrite length_app. cbn [List.length].
  unfold bind at 1. unfold CircularQueue.create.
  pose proof (stack_scan_hit (List.length rest) rest o (qpre ++ x :: qrest)
                pre 0%nat [] Hidx ltac:(cbn [List.length]; lia)) as H1.
  unfold state in H1. rewrite H1. cbn [app].
  unfold bind at 1. unfold while_ at 1. cbn [fst CircularQueue.items].
  pose proof (restack_loop (qpre ++ x :: qrest) pre rest ltac:(lia)) as H2.
  unfold state in H2. rewrite H2.
  unfold bind at 1. unfold on_world at 1, zoom at 1, gets at 1.
  cbn [fst snd self AdditiveLayerStore.queue].
  unfold CircularQueue.len. cbn [CircularQueue.items]. rewrite Nat2Z.id.
  rewrite length_app. cbn [List.length].
  unfold bind at 1.
  pose proof (queue_scan_hit (List.length qrest) x [] (rev pre ++ rest)
                qpre 0%nat qrest ltac:(cbn [Nat.add]; lia) Hql) as H3.
  unfold state in H3. rewrite H3.
  unfold bind at 1.
  pose proof (requeue_nothing (rev pre ++ rest) (qrest ++ qpre)) as H4.
  unfold state in H4. rewrite H4. reflexivity.
Qed.

(** [erase(k)] for a position that neither container has. *)
Lemma add_erase_outside (stk qs : list (option loc)) :
  (index < 0 \/ Z.of_nat (List.length stk) <= index) ->
  (index < 0 \/ Z.of_nat (List.length qs) <= index) ->
  (List.length stk <= 100)%nat ->
  (List.length qs <= 100)%nat ->
  AdditiveLayerStore.erase index (snd (state [] stk qs))
  = (Return VNone, snd (state [] (rev stk) qs)).
Proof.
  intros Hs Hq Hls Hlq. rewrite erase_by_loops. unfold with_locals, state. cbn [snd].
  unfold bind at 1. unfold on_world at 1, zoom at 1, gets at 1.
  cbn [fst snd self AdditiveLayerStore.stack].
  unfold ArrayStack.len, range. cbn [ArrayStack.items]. rewrite Nat2Z.id.
  unfold bind at 1. unfold CircularQueue.create.
  pose proof (stack_scan_miss qs stk 0%nat [] ltac:(cbn [Nat.add]; lia)
                ltac:(cbn [List.length]; lia)) as H1.
  unfold state in H1. rewrite H1. cbn [app].
  unfold bind at 1. unfold while_ at 1. cbn [fst CircularQueue.items].
  pose proof (restack_loop qs stk [] ltac:(cbn [List.length]; lia)) as H2.
  unfold state in H2. rewrite H2. rewrite app_nil_r.
  unfold bind at 1. unfold on_world at 1, zoom at 1, gets at 1.
  cbn [fst snd self AdditiveLayerStore.queue].
  unfold CircularQueue.len. cbn [CircularQueue.items]. rewrite Nat2Z.id.
  unfold bind at 1.
  pose proof (queue_scan_miss [] (rev stk) (List.length qs) 0%nat qs
                ltac:(cbn [Nat.add]; lia) ltac:(lia) Hlq) as H3.
  unfold state in H3. rewrite H3.
  rewrite skipn_all, firstn_all. cbn [app].
  unfold bind at 1.
  pose proof (requeue_nothing (rev stk) qs) as H4.
  unfold state in H4. rewrite H4. reflexivity.
Qed.
End EraseLoops.

(** X12: [erase(k)] on an additive store whose stack and queue both hold
    more than [k] layers returns [None]; from the stack it removes the
    layer [k] places below the top, the most recent being place 0, and
    puts the [k] layers above it back in reverse order; from the queue
    it removes the layer [k] places behind the front and moves the [k]
    layers before it to the back. *)
Theorem X12_additive_erase_at_position :
  forall (h : Heap) (pre rest qpre qrest : list (option loc)) (o x : option loc),
    List.length qpre = List.length pre ->
    (List.length pre + S (List.length rest) <= 100)%nat ->
    (List.length qpre + S (List.length qrest) <= 100)%nat ->
    AdditiveLayerStore.erase (Z.of_nat (List.length pre))
      (mkWorld h (AdditiveLayerStore.mk
                    (ArrayStack.mk (pre ++ o :: rest) (Some 100%nat))
                    (CircularQueue.mk (qpre ++ x :: qrest) 100)))
    = (Return VNone,
       mkWorld h (AdditiveLayerStore.mk
                    (ArrayStack.mk (rev pre ++ rest) (Some 100%nat))
                    (CircularQueue.mk (qrest ++ qpre) 100))).
Proof.
  intros h pre rest qpre qrest o x Hq Hs Hql.
  exact (add_erase_at h (Z.of_nat (List.length pre)) pre rest qpre qrest o x
           eq_refl Hq Hs Hql).
Qed.

(** After [add(A); add(B); add(C)], [erase(1)]. *)
Lemma X12_witness :
  AdditiveLayerStore.erase 1
    (mkWorld heap_abc (AdditiveLayerStore.mk
                         (ArrayStack.mk [C; B; A] (Some 100%nat))
                         (CircularQueue.mk [A; B; C] 100)))
  = (Return VNone,
     mkWorld heap_abc (AdditiveLayerStore.mk
                         (ArrayStack.mk [C; A] (Some 100%nat))
                         (CircularQueue.mk [C; A] 100))).
Proof.
  apply (X12_additive_erase_at_position heap_abc [C] [A] [A] [C] B B).
  - reflexivity.
  - cbn [List.length]. lia.
  - cbn [List.length]. lia.
Defined.

(** X13: [erase(index)] with an index that is negative or not below the
    number of stored layers returns [None], leaves the queue as it was
    and hands the stack back in reverse order; [get_color], which sums,
    returns what it returned before. *)
Theorem X13_additive_erase_outside_reverses_stack :
  forall (h : Heap) (stk qs : list (option loc)) (index : Z)
         (bg : Color) (x y z : Z),
    index < 0 \/ Z.of_nat (List.length stk) <= index ->
    index < 0 \/ Z.of_nat (List.length qs) <= index ->
    (List.length stk <= 100)%nat ->
    (List.length qs <= 100)%nat ->
    AdditiveLayerStore.erase index
      (mkWorld h (AdditiveLayerStore.mk (ArrayStack.mk stk (Some 100%nat))
                                        (CircularQueue.mk qs 100)))
    = (Return VNone,
       mkWorld h (AdditiveLayerStore.mk (ArrayStack.mk (rev stk) (Some 100%nat))
                                        (CircularQueue.mk qs 100))) /\
    fst (AdditiveLayerStore.get_color bg x y z
           (mkWorld h (AdditiveLayerStore.mk (ArrayStack.mk (rev stk) (Some 100%nat))
                                             (CircularQueue.mk qs 100))))
    = fst (AdditiveLayerStore.get_color bg x y z
             (mkWorld h (AdditiveLayerStore.mk (ArrayStack.mk stk (Some 100%nat))
                                               (CircularQueue.mk qs 100)))).
Proof.
  intros h stk qs index bg x y z Hs Hq Hls Hlq. split.
  - exact (add_erase_outside h index stk qs Hs Hq Hls Hlq).
  - rewrite !get_color_run by (try rewrite length_rev; exact Hls).
    cbn [fst]. rewrite !acc_colors_sum. do 2 f_equal.
    apply sum_colors_perm. symmetry. apply Permutation_rev.
Qed.

Lemma X13_witness :
  AdditiveLayerStore.erase (-1)
    (mkWorld heap_abc (AdditiveLayerStore.mk
                         (ArrayStack.mk [C; B; A] (Some 100%nat))
                         (CircularQueue.mk [A; B; C] 100)))
  = (Return VNone,
     mkWorld heap_abc (AdditiveLayerStore.mk
                         (ArrayStack.mk [A; B; C] (Some 100%nat))
                         (CircularQueue.mk [A; B; C] 100))).
Proof.
  refine (proj1 (X13_additive_erase_outside_reverses_stack heap_abc [C; B; A]
                   [A; B; C] (-1) (0, 0, 0) 0 0 0 _ _ _ _)).
  - left. reflexivity.
  - left. reflexivity.
  - cbn [List.length]. lia.
  - cbn [List.length]. lia.
Defined.

(** X14: on every non-empty additive store with room for one more queue
    entry, [special()] returns [None], leaves the stack as it was, puts
    a second reference to the top layer at the front of the queue, and
    so leaves the output of [get_color] as it was. *)
Theorem X14_additive_special_keeps_stack :
  forall (h : Heap) (o : option loc) (stk qs : list (option loc))
         (bg : Color) (x y z : Z),
    (List.length stk < 100)%nat ->
    (List.length qs < 100)%nat ->
    AdditiveLayerStore.special
      (mkWorld h (AdditiveLayerStore.mk (ArrayStack.mk (o :: stk) (Some 100%nat))
                                        (CircularQueue.mk qs 100)))
    = (Return VNone,
       mkWorld h (AdditiveLayerStore.mk (ArrayStack.mk (o :: stk) (Some 100%nat))
                                        (CircularQueue.mk (o :: qs) 100))) /\
    fst (AdditiveLayerStore.get_color bg x y z
           (snd (AdditiveLayerStore.special
                   (mkWorld h (AdditiveLayerStore.mk
                                 (ArrayStack.mk (o :: stk) (Some 100%nat))
                                 (CircularQueue.mk qs 100))))))
    = fst (AdditiveLayerStore.get_color bg x y z
             (mkWorld h (AdditiveLayerStore.mk
                           (ArrayStack.mk (o :: stk) (Some 100%nat))
                           (CircularQueue.mk qs 100)))).
Proof.
  intros h o stk qs bg x y z Hs Hq.
  rewrite (add_special_run h o stk qs Hs Hq). split; [reflexivity|].
  cbn [snd]. rewrite !get_color_run by (cbn [List.length]; lia). reflexivity.
Qed.

Lemma X14_witness :
  AdditiveLayerStore.special
    (mkWorld heap_abc (AdditiveLayerStore.mk
                         (ArrayStack.mk [B; A] (Some 100%nat))
                         (CircularQueue.mk [A; B] 100)))
  = (Return VNone,
     mkWorld heap_abc (AdditiveLayerStore.mk
                         (ArrayStack.mk [B; A] (Some 100%nat))
                         (CircularQueue.mk [B; A; B] 100))).
Proof.
  refine (proj1 (X14_additive_special_keeps_stack heap_abc B [A] [A; B]
                   (0, 0, 0) 0 0 0 _ _)).
  - cbn [List.length]. lia.
  - cbn [List.length]. lia.
Defined.

(** X15: on every non-empty additive store, [erase(0)] removes the layer
    added last, so that [get_color] then returns the background plus the
    colors of all layers but that one. *)
Theorem X15_additive_erase_first_drops_latest :
  forall (h : Heap) (o : option loc) (stk qs : list (option loc))
         (bg : Color) (x y z : Z),
    (List.length stk <= 100)%nat ->
    fst (AdditiveLayerStore.get_color bg x y z
           (snd (AdditiveLayerStore.erase 0
                   (mkWorld h (AdditiveLayerStore.mk
                                 (ArrayStack.mk (o :: stk) (Some 100%nat))
                                 (CircularQueue.mk qs 100))))))
    = Return (Color_add bg (sum_colors h stk)).
Proof.
  intros h o stk qs bg x y z Hs.
  rewrite add_erase_first_run. cbn [snd].
  rewrite get_color_run by exact Hs. rewrite acc_colors_sum. reflexivity.
Qed.

Lemma X15_witness :
  fst (AdditiveLayerStore.get_color (10, 10, 10) 0 0 0
         (snd (AdditiveLayerStore.erase 0
                 (mkWorld heap_abc (AdditiveLayerStore.mk
                                      (ArrayStack.mk [B; A] (Some 100%nat))
                                      (CircularQueue.mk [A; B] 100))))))
  = Return (11, 10, 10).
Proof.
  apply (X15_additive_erase_first_drops_latest heap_abc B [A] [A; B]
           (10, 10, 10) 0 0 0).
  cbn [List.length]. lia.
Defined.

(** ** [AdditiveLayerStore.add] and the capacity *)

Lemma add_all_app (l1 l2 : list (option loc)) :
  forall w,
    add_all (l1 ++ l2) w
    = match add_all l1 w with
      | (Return _, w') => add_all l2 w'
      | (Raise e, w') => (Raise e, w')
      end.
Proof.
  induction l1 as [|o l1 IH]; intros w; [reflexivity|].
  cbn [app add_all]. unfold bind.
  destruct (AdditiveLayerStore.add o w) as [[v|e] w1]; [apply IH | reflexivity].
Qed.

Lemma add_on_full_stack (h : Heap) (o : option loc) (stk : list (option loc))
    (q : CircularQueue.t (option loc)) :
  (100 <= List.length stk)%nat ->
  AdditiveLayerStore.add o
    (mkWorld h (AdditiveLayerStore.mk (ArrayStack.mk stk (Some 100%nat)) q))
  = (Raise (Exception "Stack is full"),
     mkWorld h (AdditiveLayerStore.mk (ArrayStack.mk stk (Some 100%nat)) q)).
Proof.
  intros Hlen. unfold AdditiveLayerStore.add. run_step.
  apply Nat.leb_le in Hlen. rewrite Hlen. destruct q; reflexivity.
Qed.

(** X16: more than 100 [add] calls on a freshly constructed additive
    store: the first 100 return and store their layers, the next one
    raises "Stack is full" and stores nothing, neither on the stack nor
    on the queue. *)
Theorem X16_additive_add_beyond_capacity :
  forall (h : Heap) (ls : list (option loc)),
    (100 < List.length ls)%nat ->
    add_all ls (mkWorld h AdditiveLayerStore.init)
    = (Raise (Exception "Stack is full"),
       mkWorld h (AdditiveLayerStore.mk
                    (ArrayStack.mk (rev (firstn 100 ls)) (Some 100%nat))
                    (CircularQueue.mk (firstn 100 ls) 100))).
Proof.
  intros h ls Hlen.
  rewrite <- (firstn_skipn 100 ls) at 1.
  assert (Hf : List.length (firstn 100 ls) = 100%nat)
    by (rewrite length_firstn; lia).
  rewrite add_all_app.
  unfold AdditiveLayerStore.init, ArrayStack.create, CircularQueue.create.
  rewrite add_all_run by (cbn [List.length]; lia).
  cbn [app]. rewrite app_nil_r.
  destruct (skipn 100 ls) as [|o rest] eqn:Es.
  - exfalso. apply (f_equal (@List.length _)) in Es.
    rewrite length_skipn in Es. cbn [List.length] in Es. lia.
  - cbn [add_all]. unfold bind.
    rewrite add_on_full_stack by (rewrite length_rev; lia).
    reflexivity.
Qed.

(** 101 adds of the layer A. *)
Lemma X16_witness :
  fst (add_all (repeat A 101) (mkWorld heap_abc AdditiveLayerStore.init))
  = Raise (Exception "Stack is full").
Proof.
  rewrite (X16_additive_add_beyond_capacity heap_abc (repeat A 101)).
  - reflexivity.
  - rewrite repeat_length. lia.
Defined.

(** X17: on an additive store with room in both containers, [add]
    returns [None] and raises the output of [get_color] by the color of
    the layer added, channel by channel; a [None] layer adds nothing. *)
Theorem X17_additive_add_raises_get_color :
  forall (h : Heap) (o : option loc) (stk qs : list (option loc))
         (bg : Color) (x y z : Z),
    (List.length stk < 100)%nat ->
    (List.length qs < 100)%nat ->
    AdditiveLayerStore.add o
      (mkWorld h (AdditiveLayerStore.mk (ArrayStack.mk stk (Some 100%nat))
                                        (CircularQueue.mk qs 100)))
    = (Return VNone,
       mkWorld h (AdditiveLayerStore.mk (ArrayStack.mk (o :: stk) (Some 100%nat))
                                        (CircularQueue.mk (qs ++ [o]) 100))) /\
    fst (AdditiveLayerStore.get_color bg x y z
           (mkWorld h (AdditiveLayerStore.mk
                         (ArrayStack.mk (o :: stk) (Some 100%nat))
                         (CircularQueue.mk (qs ++ [o]) 100))))
    = Return (Color_add
                (Color_add bg (sum_colors h stk))
                (AdditiveLayerStore.layer_color h o)).
Proof.
  intros h o stk qs bg x y z Hs Hq. split.
  - unfold AdditiveLayerStore.add. run_step.
    assert (E1 : Nat.leb 100 (List.length stk) = false) by (apply Nat.leb_gt; lia).
    assert (E2 : Nat.leb 100 (List.length qs) = false) by (apply Nat.leb_gt; lia).
    rewrite E1. run_step. rewrite E2. reflexivity.
  - rewrite get_color_run by (cbn [List.length]; lia).
    rewrite acc_colors_sum. cbn [fst]. f_equal.
    unfold sum_colors. cbn [fold_right].
    rewrite (Color_add_comm (AdditiveLayerStore.layer_color h o)).
    apply Color_add_assoc.
Qed.

Lemma X17_witness :
  fst (AdditiveLayerStore.get_color (10, 10, 10) 0 0 0
         (mkWorld heap_abc (AdditiveLayerStore.mk
                              (ArrayStack.mk [B; A] (Some 100%nat))
                              (CircularQueue.mk [A; B] 100))))
  = Return (11, 12, 10).
Proof.
  refine (proj2 (X17_additive_add_raises_get_color heap_abc B [A] [A]
                   (10, 10, 10) 0 0 0 _ _)).
  - cbn [List.length]. lia.
  - cbn [List.length]. lia.
Defined.

(** X18: [special()] on a non-empty additive store whose queue is full
    raises "Queue is full" and leaves the store as it was. *)
Theorem X18_additive_special_on_full_queue :
  forall (h : Heap) (o : option loc) (stk qs : list (option loc)),
    (List.length stk < 100)%nat ->
    (100 <= List.length qs)%nat ->
    AdditiveLayerStore.special
      (mkWorld h (AdditiveLayerStore.mk (ArrayStack.mk (o :: stk) (Some 100%nat))
                                        (CircularQueue.mk qs 100)))
    = (Raise (Exception "Queue is full"),
       mkWorld h (AdditiveLayerStore.mk (ArrayStack.mk (o :: stk) (Some 100%nat))
                                        (CircularQueue.mk qs 100))).
Proof.
  intros h o stk qs Hs Hq. unfold AdditiveLayerStore.special. run_step.
  assert (E1 : Nat.leb 100 (List.length stk) = false) by (apply Nat.leb_gt; lia).
  assert (E2 : Nat.leb 100 (List.length qs) = true) by (apply Nat.leb_le; lia).
  rewrite E1. run_step. rewrite E2. reflexivity.
Qed.

(** Such a store is reached from a fresh one by [add(A)] and 99 calls
    of [special()], each of which adds one queue entry. *)
Lemma X18_witness :
  fst (AdditiveLayerStore.special
         (snd ((AdditiveLayerStore.add A ;;; special_times 99)
                 (mkWorld heap_abc AdditiveLayerStore.init))))
  = Raise (Exception "Queue is full").
Proof.
  assert (E : snd ((AdditiveLayerStore.add A ;;; special_times 99)
                     (mkWorld heap_abc AdditiveLayerStore.init))
              = mkWorld heap_abc
                  (AdditiveLayerStore.mk (ArrayStack.mk [A] (Some 100%nat))
                                         (CircularQueue.mk (repeat A 100) 100)))
    by (vm_compute; reflexivity).
  rewrite E.
  rewrite (X18_additive_special_on_full_queue heap_abc A [] (repeat A 100)).
  - reflexivity.
  - cbn [List.length]. lia.
  - rewrite repeat_length. lia.
Defined.

(** ** [SequenceLayerStore.get_color] with a valid layer *)

Lemma get_color_by_loops (start timestamp x y : Z) :
  SequenceLayerStore.get_color start timestamp x y
  = with_locals (SequenceLayerStore.mkGL (ArrayStack.create None) None None) (
      ls <- on_world (gets (fun w =>
        ArraySortedList.values (SequenceLayerStore.layers (self w)))) ;;
      for_each ls (collect_body start timestamp) ;;;
      cur <- on_locals (gets SequenceLayerStore.curr_layer) ;;
      c <- SequenceLayerStore.call_get_color cur x y ;;
      SequenceLayerStore.set_color c ;;;
      while_ (fun s => List.length (ArrayStack.items
                (SequenceLayerStore.valid_layers (fst s))))
        pick_cond (pick_body x y) ;;;
      col <- on_locals (gets SequenceLayerStore.color) ;;
      match col with
      | Some c => ret c
      | None => raise (NameError "color")
      end).
Proof. reflexivity. Qed.

Lemma Color_eqb_eq (c d : Color) : Color_eqb c d = true <-> c = d.
Proof.
  destruct c as [[r1 g1] b1], d as [[r2 g2] b2]. unfold Color_eqb.
  rewrite !andb_true_iff, !Z.eqb_eq. split.
  - intros [[-> ->] ->]. reflexivity.
  - intros H. injection H as -> -> ->. auto.
Qed.

Lemma last_cons_default {A} (l : list A) (a d : A) : last (a :: l) d = last l a.
Proof.
  revert a d. induction l as [|b l IH]; intros a d; [reflexivity|].
  change (last (a :: b :: l) d) with (last (b :: l) d).
  rewrite (IH b d), (IH b a). reflexivity.
Qed.

Section SeqGetColor.
Variable w : World SequenceLayerStore.t.
Variables start timestamp x y : Z.

Let gc (l : loc) : Color := Layer.get_color (heap w l) x y.
Let act (l : loc) : bool := activated (heap w) start timestamp l.

Let state (items : list loc) (cur : option loc) (col : option Color)
  : SequenceLayerStore.get_color_locals * World SequenceLayerStore.t :=
  (SequenceLayerStore.mkGL (ArrayStack.mk items None) cur col, w).

Lemma collect_body_run l items cur col :
  collect_body start timestamp l (state items cur col)
  = (Return Continue,
     if act l then state (l :: items) (Some l) col else state items cur col).
Proof.
  unfold collect_body, state, act, activated, bind,
    SequenceLayerStore.set_curr_layer, SequenceLayerStore.valid_layers_,
    on_world, on_locals, zoom, getattr, gets, modify, ret, ArrayStack.push,
    ArrayStack.is_full.
  cbn [fst snd SequenceLayerStore.valid_layers SequenceLayerStore.curr_layer
       SequenceLayerStore.color ArrayStack.items ArrayStack.max_capacity].
  destruct ((Layer.timestamp (heap w l) <=? timestamp)
            && (Layer.start (heap w l) <=? start)); reflexivity.
Qed.

Lemma collect_run (ls : list loc) :
  forall items cur col,
    for_each ls (collect_body start timestamp) (state items cur col)
    = (Return tt,
       state (rev (filter act ls) ++ items)
             (match rev (filter act ls) with v :: _ => Some v | [] => cur end)
             col).
Proof.
  induction ls as [|l ls IH]; intros items cur col; [reflexivity|].
  cbn [for_each filter]. unfold bind at 1. rewrite collect_body_run.
  destruct (act l).
  - rewrite IH. cbn [rev]. rewrite <- app_assoc. cbn [app].
    destruct (rev (filter act ls)); reflexivity.
  - apply IH.
Qed.

Lemma pick_cond_run items cur col :
  pick_cond (state items cur col)
  = (Return (match items with [] => false | _ => true end), state items cur col).
Proof.
  unfold pick_cond, state, bind, SequenceLayerStore.valid_layers_, on_locals,
    zoom, ArrayStack.is_empty, gets, ret. cbn [fst snd
    SequenceLayerStore.valid_layers SequenceLayerStore.curr_layer
    SequenceLayerStore.color ArrayStack.items]. destruct items; reflexivity.
Qed.

Lemma pick_body_run l items cur :
  pick_body x y (state (l :: items) (Some cur) (Some (gc cur)))
  = (Return tt,
     state items (Some (picked (heap w) x y cur [l]))
           (Some (gc (picked (heap w) x y cur [l])))).
Proof.
  unfold pick_body, state, picked, gc. cbn [fold_left].
  unfold SequenceLayerStore.valid_layers_, SequenceLayerStore.call_get_color,
    SequenceLayerStore.set_color, SequenceLayerStore.set_curr_layer.
  unfold bind, on_locals, on_world, zoom, ArrayStack.pop, getattr, gets,
    modify, ret.
  cbn [fst snd SequenceLayerStore.valid_layers SequenceLayerStore.curr_layer
       SequenceLayerStore.color ArrayStack.items ArrayStack.max_capacity].
  destruct (Color_eqb (Layer.get_color (heap w l) x y)
                      (Layer.get_color (heap w cur) x y)); reflexivity.
Qed.

Lemma pick_loop (items : list loc) :
  forall cur,
    while_fuel (List.length items) pick_cond (pick_body x y)
      (state items (Some cur) (Some (gc cur)))
    = (Return tt,
       state [] (Some (picked (heap w) x y cur items))
             (Some (gc (picked (heap w) x y cur items)))).
Proof.
  induction items as [|l items IH]; intros cur.
  - cbn [List.length while_fuel]. unfold bind. rewrite pick_cond_run. reflexivity.
  - cbn [List.length while_fuel]. unfold bind at 1. rewrite pick_cond_run.
    unfold bind at 1. rewrite pick_body_run. rewrite IH. reflexivity.
Qed.

Lemma picked_color (items : list loc) :
  forall cur, gc (picked (heap w) x y cur items) = last (map gc items) (gc cur).
Proof.
  induction items as [|l items IH]; intros cur; [reflexivity|].
  unfold picked in *. cbn [fold_left map]. rewrite IH.
  rewrite last_cons_default. f_equal.
  destruct (Color_eqb (Layer.get_color (heap w l) x y)
                      (Layer.get_color (heap w cur) x y)) eqn:E; [|reflexivity].
  apply Color_eqb_eq in E. unfold gc. symmetry. exact E.
Qed.

Lemma seq_get_color_first_valid (v : loc) (vs : list loc) :
  filter act (ArraySortedList.values (SequenceLayerStore.layers (self w))) = v :: vs ->
  SequenceLayerStore.get_color start timestamp x y w = (Return (gc v), w).
Proof.
  intros Hf. rewrite get_color_by_loops. unfold with_locals.
  unfold bind at 1. unfold on_world at 1, zoom at 1, gets at 1. cbn [fst snd].
  unfold bind at 1. unfold ArrayStack.create.
  pose proof (collect_run (ArraySortedList.values (SequenceLayerStore.layers (self w)))
                [] None None) as H1.
  unfold state in H1. rewrite H1. rewrite Hf. rewrite app_nil_r.
  cbn [rev]. destruct (rev vs ++ [v]) as [|t items] eqn:Er.
  { destruct (rev vs); discriminate Er. }
  unfold bind at 1. unfold on_locals at 1, zoom at 1, gets at 1.
  cbn [fst snd SequenceLayerStore.curr_layer].
  unfold bind at 1. unfold SequenceLayerStore.call_get_color at 1.
  unfold bind at 1. unfold on_world at 1, zoom at 1, getattr at 1, gets at 1.
  cbn [fst snd]. unfold ret at 1.
  unfold bind at 1. unfold SequenceLayerStore.set_color at 1, on_locals at 1,
    zoom at 1, modify at 1.
  cbn [fst snd SequenceLayerStore.valid_layers SequenceLayerStore.curr_layer].
  unfold bind at 1. unfold while_ at 1.
  cbn [fst SequenceLayerStore.valid_layers ArrayStack.items].
  pose proof (pick_loop (t :: items) t) as H2. unfold state, gc in H2.
  rewrite H2.
  unfold bind at 1. unfold on_locals at 1, zoom at 1, gets at 1.
  cbn [fst snd SequenceLayerStore.color]. unfold ret.
  pose proof (picked_color (t :: items) t) as H3. unfold gc in H3.
  rewrite H3, <- Er, map_app. cbn [map]. rewrite last_last. reflexivity.
Qed.
End SeqGetColor.

(** ** [SequenceLayerStore.add] and [erase] *)

Lemma contains_In (l : loc) (s : ArraySortedList.t) :
  ArraySortedList.contains (Some l) s = true <-> In l (ArraySortedList.values s).
Proof.
  unfold ArraySortedList.contains. rewrite existsb_exists. split.
  - intros (y & Hy & E). apply Nat.eqb_eq in E. subst y. exact Hy.
  - intros H. exists l. split; [exact H | apply Nat.eqb_refl].
Qed.

Lemma insert_perm (k : Z) (l : loc) (xs : list (Z * loc)) :
  Permutation (map snd (ArraySortedList.insert k l xs)) (l :: map snd xs).
Proof.
  induction xs as [|[k' y] xs IH]; cbn [ArraySortedList.insert map snd].
  - reflexivity.
  - destruct (k <? k'); cbn [map snd]; [reflexivity|].
    rewrite IH. apply perm_swap.
Qed.

Lemma remove_first_insert (k : Z) (l : loc) (xs : list (Z * loc)) :
  ~ In l (map snd xs) ->
  ArraySortedList.remove_first l (ArraySortedList.insert k l xs) = Some xs.
Proof.
  induction xs as [|[k' y] xs IH]; intros Hn;
    cbn [ArraySortedList.insert ArraySortedList.remove_first].
  - rewrite Nat.eqb_refl. reflexivity.
  - destruct (k <? k'); cbn [ArraySortedList.remove_first].
    + rewrite Nat.eqb_refl. reflexivity.
    + cbn [map snd In] in Hn.
      destruct (Nat.eqb l y) eqn:E.
      * apply Nat.eqb_eq in E. subst y. exfalso. apply Hn. left. reflexivity.
      * rewrite IH by (intros H; apply Hn; right; exact H). reflexivity.
Qed.

Lemma remove_first_perm (l : loc) (xs : list (Z * loc)) :
  In l (map snd xs) ->
  exists ys, ArraySortedList.remove_first l xs = Some ys /\
             Permutation (map snd xs) (l :: map snd ys).
Proof.
  induction xs as [|[k y] xs IH]; intros Hin; [destruct Hin|].
  cbn [ArraySortedList.remove_first]. destruct (Nat.eqb l y) eqn:E.
  - apply Nat.eqb_eq in E. subst y. exists xs. split; reflexivity.
  - cbn [map snd In] in Hin. destruct Hin as [->|Hin].
    + rewrite Nat.eqb_refl in E. discriminate.
    + destruct (IH Hin) as (ys & Hr & Hp). rewrite Hr. cbn [option_map].
      exists ((k, y) :: ys). split; [reflexivity|].
      cbn [map snd]. rewrite Hp. apply perm_swap.
Qed.

Lemma seq_add_run (h : Heap) (s : ArraySortedList.t) (l : loc) :
  SequenceLayerStore.add (Some l) (mkWorld h (SequenceLayerStore.mk s))
  = if ArraySortedList.contains (Some l) s
    then (Return (VBool false), mkWorld h (SequenceLayerStore.mk s))
    else if Nat.leb (ArraySortedList.max_capacity s)
                    (List.length (ArraySortedList.items s))
    then (Raise (Exception "List is full"), mkWorld h (SequenceLayerStore.mk s))
    else (Return (VBool true),
          mkWorld h (SequenceLayerStore.mk
                       (ArraySortedList.mk
                          (ArraySortedList.insert (Layer.index (h l)) l
                             (ArraySortedList.items s))
                          (ArraySortedList.max_capacity s)))).
Proof.
  unfold SequenceLayerStore.add, SequenceLayerStore.contains,
    SequenceLayerStore.layers_.
  unfold bind, getattr, gets, on_self, zoom, ArraySortedList.add, ret.
  cbn [heap self SequenceLayerStore.layers].
  destruct (ArraySortedList.contains (Some l) s); [reflexivity|].
  cbn [heap self SequenceLayerStore.layers].
  destruct (Nat.leb _ _); reflexivity.
Qed.

Lemma seq_erase_run (h : Heap) (s : ArraySortedList.t) (l : loc) :
  SequenceLayerStore.erase (Some l) (mkWorld h (SequenceLayerStore.mk s))
  = if ArraySortedList.contains (Some l) s
    then match ArraySortedList.remove_first l (ArraySortedList.items s) with
         | Some ys =>
             (Return (VBool true),
              mkWorld h (SequenceLayerStore.mk
                           (ArraySortedList.mk ys (ArraySortedList.max_capacity s))))
         | None => (Raise (Exception "Item not found"),
                    mkWorld h (SequenceLayerStore.mk s))
         end
    else (Return (VBool false), mkWorld h (SequenceLayerStore.mk s)).
Proof.
  unfold SequenceLayerStore.erase, SequenceLayerStore.contains,
    SequenceLayerStore.layers_.
  unfold bind, gets, on_self, zoom, ArraySortedList.remove, ret.
  cbn [heap self SequenceLayerStore.layers].
  destruct (ArraySortedList.contains (Some l) s); [|reflexivity].
  cbn [heap self SequenceLayerStore.layers].
  destruct (ArraySortedList.remove_first l (ArraySortedList.items s)); reflexivity.
Qed.

Lemma seq_get_color_keeps_self s t x y :
  preserves self (SequenceLayerStore.get_color s t x y).
Proof.
  unfold SequenceLayerStore.get_color, SequenceLayerStore.call_get_color,
    SequenceLayerStore.valid_layers_, SequenceLayerStore.set_curr_layer,
    SequenceLayerStore.set_color.
  keeps_all.
Qed.

Lemma seq_call_nodup (op : seq_op) (w : World SequenceLayerStore.t) :
  NoDup (stored w) -> NoDup (stored (seq_call op w)).
Proof.
  intros Hnd. destruct op as [[l|]|[l|]|s t x y|]; unfold seq_call.
  - destruct w as [h [s]]. rewrite seq_add_run.
    destruct (ArraySortedList.contains (Some l) s) eqn:E; [exact Hnd|].
    destruct (Nat.leb _ _); [exact Hnd|].
    unfold stored, ArraySortedList.values in *.
    cbn [snd self SequenceLayerStore.layers ArraySortedList.items] in *.
    apply (Permutation_NoDup (l := l :: map snd (ArraySortedList.items s))).
    + symmetry. apply insert_perm.
    + constructor; [|exact Hnd]. intros Hin.
      apply (proj2 (contains_In l s)) in Hin. congruence.
  - exact Hnd.
  - destruct w as [h [s]]. rewrite seq_erase_run.
    destruct (ArraySortedList.contains (Some l) s) eqn:E; [|exact Hnd].
    apply contains_In in E.
    destruct (remove_first_perm l (ArraySortedList.items s) E) as (ys & Hr & Hp).
    rewrite Hr. unfold stored, ArraySortedList.values in *.
    cbn [snd self SequenceLayerStore.layers ArraySortedList.items] in *.
    apply (Permutation_NoDup Hp) in Hnd. inversion Hnd. assumption.
  - exact Hnd.
  - unfold stored. rewrite seq_get_color_keeps_self. exact Hnd.
  - rewrite seq_special_raises. exact Hnd.
Qed.

Lemma seq_calls_nodup (ops : list seq_op) :
  forall w, NoDup (stored w) -> NoDup (stored (seq_calls ops w)).
Proof.
  induction ops as [|op ops IH]; intros w Hw; [exact Hw|].
  unfold seq_calls. cbn [fold_left]. apply IH. apply seq_call_nodup. exact Hw.
Qed.

(** X19: when at least one stored layer satisfies the activation
    condition, [get_color] returns what the first such layer in
    iteration order, the one of lowest index, gives as its own
    [get_color(x, y)], whatever the layers after it give, and leaves the
    store as it was. *)
Theorem X19_seq_get_color_first_valid_layer :
  forall (w : World SequenceLayerStore.t) (start timestamp x y : Z)
         (v : loc) (vs : list loc),
    filter (activated (heap w) start timestamp) (stored w) = v :: vs ->
    SequenceLayerStore.get_color start timestamp x y w
    = (Return (Layer.get_color (heap w v) x y), w).
Proof.
  intros w start timestamp x y v vs Hf.
  exact (seq_get_color_first_valid w start timestamp x y v vs Hf).
Qed.

(** The layers b, a, e of [heap_names], all valid: the color is b's. *)
Lemma X19_witness :
  fst (SequenceLayerStore.get_color 0 0 0 0
         (snd (seq_add_all [2; 1; 0]%nat
                 (mkWorld heap_names SequenceLayerStore.init))))
  = Return (1, 1, 1).
Proof.
  rewrite (X19_seq_get_color_first_valid_layer _ 0 0 0 0 0%nat [1; 2]%nat).
  - reflexivity.
  - reflexivity.
Defined.

(** X20: [add] of a layer that a sequence store with room does not hold
    returns [True] and stores the layer beside those already there; a
    second [add] of the same layer returns [False] and changes
    nothing. *)
Theorem X20_seq_add_twice :
  forall (w : World SequenceLayerStore.t) (l : loc),
    ~ In l (stored w) ->
    (List.length (stored w)
     < ArraySortedList.max_capacity (SequenceLayerStore.layers (self w)))%nat ->
    fst (SequenceLayerStore.add (Some l) w) = Return (VBool true) /\
    Permutation (stored (snd (SequenceLayerStore.add (Some l) w))) (l :: stored w) /\
    SequenceLayerStore.add (Some l) (snd (SequenceLayerStore.add (Some l) w))
    = (Return (VBool false), snd (SequenceLayerStore.add (Some l) w)).
Proof.
  intros [h [s]] l Hn Hlen. unfold stored, ArraySortedList.values in *.
  cbn [self SequenceLayerStore.layers] in *. rewrite length_map in Hlen.
  assert (E : ArraySortedList.contains (Some l) s = false).
  { destruct (ArraySortedList.contains (Some l) s) eqn:E; [|reflexivity].
    apply contains_In in E. contradiction. }
  assert (E2 : Nat.leb (ArraySortedList.max_capacity s)
                       (List.length (ArraySortedList.items s)) = false)
    by (apply Nat.leb_gt; exact Hlen).
  rewrite seq_add_run, E, E2. cbn [fst snd self SequenceLayerStore.layers
    ArraySortedList.items].
  split; [reflexivity|]. split; [apply insert_perm|].
  rewrite seq_add_run.
  assert (E3 : ArraySortedList.contains (Some l)
                 (ArraySortedList.mk
                    (ArraySortedList.insert (Layer.index (h l)) l
                       (ArraySortedList.items s))
                    (ArraySortedList.max_capacity s)) = true).
  { apply contains_In. unfold ArraySortedList.values.
    cbn [ArraySortedList.items].
    apply (Permutation_in (l := l :: map snd (ArraySortedList.items s)));
      [symmetry; apply insert_perm | left; reflexivity]. }
  rewrite E3. reflexivity.
Qed.

Lemma X20_witness :
  SequenceLayerStore.add (Some 3%nat)
    (snd (SequenceLayerStore.add (Some 3%nat)
            (mkWorld heap_names SequenceLayerStore.init)))
  = (Return (VBool false),
     snd (SequenceLayerStore.add (Some 3%nat)
            (mkWorld heap_names SequenceLayerStore.init))).
Proof.
  refine (proj2 (proj2
           (X20_seq_add_twice (mkWorld heap_names SequenceLayerStore.init) 3%nat _ _))).
  - intros [].
  - cbn. lia.
Defined.

(** X21: whatever sequence of [add], [erase], [get_color] and [special]
    calls is made on a freshly constructed sequence store, no layer is
    stored twice. *)
Theorem X21_seq_store_has_no_duplicate :
  forall (ops : list seq_op) (h : Heap),
    NoDup (stored (seq_calls ops (mkWorld h SequenceLayerStore.init))).
Proof. intros ops h. apply seq_calls_nodup. constructor. Qed.

(** X22: on every sequence store reached from a fresh one, [erase] of a
    stored layer returns [True]; afterwards that layer is not stored and
    every other layer is stored exactly if it was before. *)
Theorem X22_seq_erase_removes_the_layer :
  forall (ops : list seq_op) (h : Heap) (w : World SequenceLayerStore.t)
         (l : loc),
    w = seq_calls ops (mkWorld h SequenceLayerStore.init) ->
    In l (stored w) ->
    fst (SequenceLayerStore.erase (Some l) w) = Return (VBool true) /\
    ~ In l (stored (snd (SequenceLayerStore.erase (Some l) w))) /\
    forall l' : loc,
      l' <> l ->
      (In l' (stored (snd (SequenceLayerStore.erase (Some l) w)))
       <-> In l' (stored w)).
Proof.
  intros ops h w l Hw Hin.
  assert (Hnd : NoDup (stored (seq_calls ops (mkWorld h SequenceLayerStore.init))))
    by (apply seq_calls_nodup; constructor).
  rewrite <- Hw in Hnd. clear Hw. destruct w as [h' [s]].
  unfold stored, ArraySortedList.values in *.
  cbn [self SequenceLayerStore.layers] in *.
  destruct (remove_first_perm l (ArraySortedList.items s) Hin) as (ys & Hr & Hp).
  rewrite seq_erase_run, (proj2 (contains_In l s) Hin), Hr.
  cbn [fst snd self SequenceLayerStore.layers ArraySortedList.items].
  pose proof (Permutation_NoDup Hp Hnd) as Hnd'. inversion Hnd' as [|? ? Hnl _].
  split; [reflexivity|]. split; [exact Hnl|].
  intros l' Hne. split.
  - intros Hm. apply (Permutation_in (l := l :: map snd ys));
      [symmetry; exact Hp | right; exact Hm].
  - intros Hm. apply (Permutation_in _ Hp) in Hm.
    destruct Hm as [Hm|Hm]; [congruence | exact Hm].
Qed.

Lemma X22_witness :
  fst (SequenceLayerStore.erase (Some 1%nat)
         (seq_calls [SeqAdd (Some 0%nat); SeqAdd (Some 1%nat)]
            (mkWorld heap_names SequenceLayerStore.init)))
  = Return (VBool true).
Proof.
  refine (proj1 (X22_seq_erase_removes_the_layer
                   [SeqAdd (Some 0%nat); SeqAdd (Some 1%nat)] heap_names
                   _ 1%nat eq_refl _)).
  right. left. reflexivity.
Defined.

(** X23: on a sequence store with room, [add] of a layer it does not
    hold followed by [erase] of that layer returns [True] and hands the
    store back exactly as it was. *)
Theorem X23_seq_add_then_erase :
  forall (w : World SequenceLayerStore.t) (l : loc),
    ~ In l (stored w) ->
    (List.length (stored w)
     < ArraySortedList.max_capacity (SequenceLayerStore.layers (self w)))%nat ->
    (SequenceLayerStore.add (Some l) ;;; SequenceLayerStore.erase (Some l)) w
    = (Return (VBool true), w).
Proof.
  intros [h [s]] l Hn Hlen. unfold stored, ArraySortedList.values in *.
  cbn [self SequenceLayerStore.layers] in *. rewrite length_map in Hlen.
  assert (E : ArraySortedList.contains (Some l) s = false).
  { destruct (ArraySortedList.contains (Some l) s) eqn:E; [|reflexivity].
    apply contains_In in E. contradiction. }
  assert (E2 : Nat.leb (ArraySortedList.max_capacity s)
                       (List.length (ArraySortedList.items s)) = false)
    by (apply Nat.leb_gt; exact Hlen).
  unfold bind. rewrite seq_add_run, E, E2, seq_erase_run.
  assert (E3 : ArraySortedList.contains (Some l)
                 (ArraySortedList.mk
                    (ArraySortedList.insert (Layer.index (h l)) l
                       (ArraySortedList.items s))
                    (ArraySortedList.max_capacity s)) = true).
  { apply contains_In. unfold ArraySortedList.values.
    cbn [ArraySortedList.items].
    apply (Permutation_in (l := l :: map snd (ArraySortedList.items s)));
      [symmetry; apply insert_perm | left; reflexivity]. }
  rewrite E3. cbn [ArraySortedList.items ArraySortedList.max_capacity].
  rewrite remove_first_insert by exact Hn. destruct s; reflexivity.
Qed.

Lemma X23_witness :
  (SequenceLayerStore.add (Some 3%nat) ;;; SequenceLayerStore.erase (Some 3%nat))
    (seq_calls [SeqAdd (Some 0%nat)] (mkWorld heap_names SequenceLayerStore.init))
  = (Return (VBool true),
     seq_calls [SeqAdd (Some 0%nat)] (mkWorld heap_names SequenceLayerStore.init)).
Proof.
  apply (X23_seq_add_then_erase
           (seq_calls [SeqAdd (Some 0%nat)]
              (mkWorld heap_names SequenceLayerStore.init)) 3%nat).
  - intros [H|[]]. discriminate H.
  - cbn. lia.
Defined.

(** ** [Grid.__setitem__] *)

Lemma fresh_grid_getitem (ds : string) (x y key : Z) (printed : list string)
    (g : ArrayR.t (ArrayR.t Grid.cell)) :
  Grid.getitem key
    (Grid.mkW printed (Grid.mk (Some ds) (Some 1) (Some x) (Some y) (Some g)))
  = (if ArrayR.in_range g key
     then Return (nth (Z.to_nat key) g None)
     else Raise IndexError,
     Grid.mkW printed (Grid.mk (Some ds) (Some 1) (Some x) (Some y) (Some g))).
Proof.
  unfold Grid.getitem, Grid.grid_, ArrayR.getitem.
  cbn [Grid.obj Grid.grid Grid.stdout Grid.draw_style Grid.brush_size
       Grid.rows Grid.cols].
  destruct (ArrayR.in_range g key); reflexivity.
Qed.

Lemma in_range_repeat {A} (a : option A) (n i : Z) :
  0 <= n ->
  ArrayR.in_range (repeat a (Z.to_nat n)) i = (0 <=? i) && (i <? n).
Proof.
  intros Hn. unfold ArrayR.in_range, ArrayR.len.
  rewrite repeat_length, Z2Nat.id by exact Hn. reflexivity.
Qed.

(** X24: on the grid [__init__] leaves for a draw style of the options,
    [__setitem__(item, row, col)] with [0 <= row < x] and
    [0 <= col < y] returns; afterwards [grid[row]] is the row of null
    squares with [item] at [col], and every other row is as before. *)
Theorem X24_grid_setitem_then_getitem :
  forall (ds : string) (x y row col : Z) (printed : list string)
         (item : Grid.cell),
    0 <= row < x ->
    0 <= col < y ->
    fst (Grid.setitem item row col (fresh_grid ds x y printed)) = Return tt /\
    fst (Grid.getitem row
           (snd (Grid.setitem item row col (fresh_grid ds x y printed))))
    = Return (Some (ArrayR.set_nth (Z.to_nat col) (Some item)
                      (repeat None (Z.to_nat y)))) /\
    forall row' : Z,
      row' <> row ->
      fst (Grid.getitem row'
             (snd (Grid.setitem item row col (fresh_grid ds x y printed))))
      = fst (Grid.getitem row' (fresh_grid ds x y printed)).
Proof.
  intros ds x y row col printed item Hrow Hcol.
  assert (Hr : ArrayR.in_range (empty_grid x y) row = true).
  { unfold empty_grid. rewrite in_range_repeat by lia.
    apply andb_true_intro. split; [apply Z.leb_le | apply Z.ltb_lt]; lia. }
  assert (Hc : ArrayR.in_range (ArrayR.create (A := Grid.cell) (Z.to_nat y)) col = true).
  { unfold ArrayR.create. rewrite in_range_repeat by lia.
    apply andb_true_intro. split; [apply Z.leb_le | apply Z.ltb_lt]; lia. }
  assert (Hn : nth (Z.to_nat row) (empty_grid x y) None
               = Some (ArrayR.create (Z.to_nat y))).
  { unfold empty_grid. apply nth_repeat_some. lia. }
  assert (Hset : Grid.setitem item row col (fresh_grid ds x y printed)
                 = (Return tt,
                    Grid.mkW printed
                      (Grid.mk (Some ds) (Some 1) (Some x) (Some y)
                         (Some (ArrayR.set_nth (Z.to_nat row)
                                  (Some (ArrayR.set_nth (Z.to_nat col) (Some item)
                                           (ArrayR.create (Z.to_nat y))))
                                  (empty_grid x y)))))).
  { unfold Grid.setitem, Grid.set_cell, fresh_grid, bind, Grid.grid_,
      ArrayR.getitem. cbn [Grid.obj Grid.grid Grid.stdout Grid.draw_style
      Grid.brush_size Grid.rows Grid.cols]. rewrite Hr, Hn.
    unfold ArrayR.setitem at 1. rewrite Hc.
    unfold ArrayR.setitem. cbn [Grid.obj Grid.grid Grid.stdout Grid.draw_style
      Grid.brush_size Grid.rows Grid.cols]. rewrite Hr. reflexivity. }
  assert (Hlen : (Z.to_nat row < List.length (empty_grid x y))%nat).
  { unfold empty_grid. rewrite repeat_length. lia. }
  rewrite Hset. cbn [fst snd]. split; [reflexivity|]. split.
  - rewrite fresh_grid_getitem.
    unfold ArrayR.in_range, ArrayR.len in *. rewrite length_set_nth, Hr.
    cbn [fst]. rewrite nth_set_nth, Nat.eqb_refl by exact Hlen. reflexivity.
  - intros row' Hne. unfold fresh_grid. rewrite !fresh_grid_getitem.
    unfold ArrayR.in_range, ArrayR.len. rewrite length_set_nth.
    destruct ((0 <=? row') && (row' <? Z.of_nat (List.length (empty_grid x y))))
      eqn:E; [|reflexivity].
    cbn [fst]. rewrite nth_set_nth by exact Hlen.
    apply andb_prop in E. destruct E as [E1 _]. apply Z.leb_le in E1.
    destruct (Nat.eqb (Z.to_nat row') (Z.to_nat row)) eqn:En; [|reflexivity].
    apply Nat.eqb_eq in En. lia.
Qed.

Lemma X24_witness :
  fst (Grid.getitem 1
         (snd (Grid.setitem (Grid.SetCell SetLayerStore.init) 1 2
                 (fresh_grid "SET" 2 3 []))))
  = Return (Some [None; None; Some (Grid.SetCell SetLayerStore.init)]).
Proof.
  refine (proj1 (proj2
           (X24_grid_setitem_then_getitem "SET" 2 3 1 2 []
              (Grid.SetCell SetLayerStore.init) _ _)));
    split; (discriminate || reflexivity).
Defined.
